(** * Sea-MM-RAG frontend: stream transport, session controller, resolver

    A shallow embedding of the client-side chat engine of the repository
    (services/api.ts, components/ChatInterface.tsx,
    components/MarkdownRenderer.tsx) together with the properties that its
    design document states about it.

    Conventions of the embedding.
    - JavaScript strings are modelled as [string], read as the UTF-8 bytes of
      the text.  Every delimiter the code searches for is ASCII, so splitting,
      prefix tests and [substring] after an ASCII prefix agree with the
      UTF-16 view of the same text.
    - Numbers carried by the protocol (page, rank, clock values) are modelled
      as [Z].
    - React state and refs of one mounted component are one record; functional
      state updates are applied in program order.
    - [Date.now()] reads the field [clock] of the state. *)

From stdpp Require Import base strings gmap list pretty.
From Stdlib Require Import ZArith Lia Ascii.

Set Warnings "-register-all".

Open Scope string_scope.
Open Scope list_scope.

(** ** JavaScript string primitives used by the sources *)

Module Js.

(** [s.startsWith(p)] *)
Definition startsWith (s p : string) : bool := String.prefix p s.

(** [s.includes(sub)] *)
Fixpoint includes (s sub : string) : bool :=
  String.prefix sub s ||
  match s with
  | EmptyString => false
  | String _ s' => includes s' sub
  end.

(** [s.substring(n)] *)
Fixpoint substring_from (n : nat) (s : string) : string :=
  match n, s with
  | O, _ => s
  | S _, EmptyString => EmptyString
  | S k, String _ s' => substring_from k s'
  end.

(** Prepend a code unit to the first piece of a split. *)
Definition cons_first (c : Ascii.ascii) (l : list string) : list string :=
  match l with
  | [] => [String c EmptyString]
  | h :: tl => String c h :: tl
  end.

(** [s.split(sep)] for a non-empty separator: the occurrences of [sep] are
    found left to right and do not overlap.  [skip] counts the code units of
    a matched separator that are still to be passed over. *)
Fixpoint split_skip (sep : string) (skip : nat) (s : string) : list string :=
  match s with
  | EmptyString => [EmptyString]
  | String c s' =>
      match skip with
      | S k => split_skip sep k s'
      | O =>
          if String.prefix sep s
          then EmptyString :: split_skip sep (String.length sep - 1) s'
          else cons_first c (split_skip sep O s')
      end
  end.

Definition split (sep s : string) : list string := split_skip sep O s.

(** [arr.pop() || ''] on an array of strings: the last element, or the empty
    string when there is none (or when it is itself empty). *)
Definition pop_or_empty (l : list string) : string := List.last l EmptyString.

(** What [arr.pop()] leaves in the array. *)
Definition popped (l : list string) : list string := List.removelast l.

(** [arr.join('')] *)
Definition concat (l : list string) : string := foldr String.append EmptyString l.

(** Whether the text starts with a WhiteSpace or LineTerminator code point
    of ECMAScript, and the text after it.  The non-ASCII ones are matched as
    their UTF-8 encodings. *)
Definition strip_space (s : string) : option string :=
  match s with
  | String c1 r1 =>
      let n1 := Ascii.N_of_ascii c1 in
      if ((9 <=? n1) && (n1 <=? 13) || (n1 =? 32))%N then Some r1
      else
        match r1 with
        | String c2 r2 =>
            let n2 := Ascii.N_of_ascii c2 in
            if ((n1 =? 194) && (n2 =? 160))%N then Some r2
            else
              match r2 with
              | String c3 r3 =>
                  let n3 := Ascii.N_of_ascii c3 in
                  if ((n1 =? 225) && (n2 =? 154) && (n3 =? 128)
                      || (n1 =? 226) && (n2 =? 128)
                         && ((128 <=? n3) && (n3 <=? 138)
                             || (n3 =? 168) || (n3 =? 169) || (n3 =? 175))
                      || (n1 =? 226) && (n2 =? 129) && (n3 =? 159)
                      || (n1 =? 227) && (n2 =? 128) && (n3 =? 128)
                      || (n1 =? 239) && (n2 =? 187) && (n3 =? 191))%N
                  then Some r3 else None
              | EmptyString => None
              end
        | EmptyString => None
        end
  | EmptyString => None
  end.

(** [!s.trim()]: the text consists of white space only. *)
Fixpoint blank_fuel (fuel : nat) (s : string) : bool :=
  match s with
  | EmptyString => true
  | _ =>
      match fuel with
      | O => false
      | S k =>
          match strip_space s with
          | Some r => blank_fuel k r
          | None => false
          end
      end
  end.

Definition blank (s : string) : bool := blank_fuel (String.length s) s.

End Js.

(** ** Stream transport (services/api.ts, [processChatStream]) *)

Module Transport.
Import Js.

(** The line feed, and the blank-line delimiter of the event framing. *)
Definition LF : string := String (Ascii.ascii_of_nat 10) EmptyString.
Definition LFLF : string := LF +:+ LF.

(** The double quote. *)
Definition DQ : string := String (Ascii.ascii_of_nat 34) EmptyString.

(** Values produced by [JSON.parse].  The fields of an object are its own
    properties, each key once. *)
Inductive json : Type :=
| JNull
| JBool (b : bool)
| JNum (n : Z)
| JStr (s : string)
| JArr (items : list json)
| JObj (fields : list (string * json)).

(** A JavaScript value that may be [undefined] ([None]). *)
Definition jsval : Type := option json.

(** ToBoolean *)
Definition truthy (v : jsval) : bool :=
  match v with
  | None | Some JNull => false
  | Some (JBool b) => b
  | Some (JNum n) => negb (n =? 0)%Z
  | Some (JStr s) => negb (String.eqb s "")
  | Some (JArr _) | Some (JObj _) => true
  end.

Fixpoint field (k : string) (fields : list (string * json)) : jsval :=
  match fields with
  | [] => None
  | (k', v) :: rest => if String.eqb k' k then Some v else field k rest
  end.

(** [d.k] for a property name that no primitive or array defines: reading
    from [null] throws a TypeError ([None]); otherwise the value or
    [undefined]. *)
Definition prop (d : json) (k : string) : option jsval :=
  match d with
  | JNull => None
  | JObj fields => Some (field k fields)
  | _ => Some None
  end.

(** One invocation of a callback of [processChatStream], with the argument it
    is given. *)
Inductive Callback : Type :=
| CallCitation (data : json)
| CallToken (text : jsval)
| CallDone (data : json)
| CallError (error : json).

(** [done] and [error] make the processor return. *)
Definition is_terminal (cb : Callback) : bool :=
  match cb with
  | CallDone _ | CallError _ => true
  | CallCitation _ | CallToken _ => false
  end.

(** The [switch (eventType)] inside the inner [try]: [None] when no callback
    is invoked, either because the type is unknown or because reading the
    payload throws (the inner [catch] logs it and the loop goes on). *)
Definition dispatch (eventType : string) (data : json) : option Callback :=
  if String.eqb eventType "citation" then Some (CallCitation data)
  else if String.eqb eventType "token" then
    match prop data "text" with
    | Some v => Some (CallToken v)
    | None => None
    end
  else if String.eqb eventType "done" then Some (CallDone data)
  else if String.eqb eventType "error" then
    match prop data "message" with
    | Some v => Some (CallError (if truthy v then default JNull v else JStr "Unknown error"))
    | None => None
    end
  else None.

(** The [for (const line of lines)] loop: the last [event: ] line and the last
    [data: ] line win. *)
Definition scan_line (acc : string * string) (line : string) : string * string :=
  if startsWith line "event: " then (substring_from 7 line, snd acc)
  else if startsWith line "data: " then (fst acc, substring_from 6 line)
  else acc.

Definition scan_lines (lines : list string) : string * string :=
  foldl scan_line (EmptyString, EmptyString) lines.

(** What is thrown: an [Error] (a [TypeError] or not) with its message, or
    some value that is not an [Error]. *)
Inductive Thrown : Type :=
| ThrownError (isTypeError : bool) (message : string)
| ThrownValue.

(** The body of a response: the chunks of bytes that [reader.read()]
    delivers, and how the stream ends: [None] for [done], [Some e] when a read
    rejects with [e]. *)
Record Body : Type := { chunks : list string; failure : option Thrown }.

(** What [fetch] gives. *)
Inductive FetchResult : Type :=
| FetchRejected (e : Thrown)
| FetchResponse (ok : bool) (statusText : string) (body : option Body).

(** How the read loop is left. *)
Inductive Outcome : Type :=
| Returned
| Ended (buffer : string).

Section Stream.

(** [JSON.parse]; [None] when it throws a SyntaxError. *)
Variable JSON_parse : string -> option json.

(** The body of [for (const event of events)] for one block. *)
Definition handle_event (event : string) : option Callback :=
  if blank event then None
  else
    let '(eventType, eventData) := scan_lines (split LF event) in
    if negb (String.eqb eventType "") && negb (String.eqb eventData "") then
      match JSON_parse eventData with
      | Some data => dispatch eventType data
      | None => None
      end
    else None.

(** The [for (const event of events)] loop: the callbacks invoked, and whether
    the function returned from inside it. *)
Fixpoint handle_events (events : list string) : list Callback * bool :=
  match events with
  | [] => ([], false)
  | event :: rest =>
      match handle_event event with
      | Some cb =>
          if is_terminal cb then ([cb], true)
          else let '(out, returned) := handle_events rest in (cb :: out, returned)
      | None => handle_events rest
      end
  end.

(** A [TextDecoder]: its states, and [decoder.decode(value, {stream: true})],
    which gives the text decoded so far and the state that holds the bytes of
    an unfinished code point. *)
Variable decoder : Type.
Variable decode : decoder -> string -> decoder * string.

(** The [while (true)] loop over the chunks of the body. *)
Fixpoint read_loop (d : decoder) (buffer : string) (chunks : list string)
  : list Callback * Outcome :=
  match chunks with
  | [] => ([], Ended buffer)
  | value :: rest =>
      let '(d', text) := decode d value in
      let buffer1 := buffer +:+ text in
      let events := split LFLF buffer1 in
      let buffer2 := pop_or_empty events in
      let '(out, returned) := handle_events (popped events) in
      if returned then (out, Returned)
      else let '(out', outcome) := read_loop d' buffer2 rest in (out ++ out', outcome)
  end.

(** The texts that the decoder gives for the chunks, one after the other. *)
Fixpoint decode_chunks (d : decoder) (chunks : list string) : list string :=
  match chunks with
  | [] => []
  | value :: rest => let '(d', text) := decode d value in text :: decode_chunks d' rest
  end.

(** The simulated answer of the outer [catch]. *)
Definition mockResponse (message : string) : string :=
  "I understand you're asking about: " +:+ DQ +:+ message +:+ DQ +:+ ".

Since the backend API is not currently available, I'm showing you a demonstration of the interface. 

## Key Features Demonstrated:
- **Markdown rendering**: This response shows how text formatting works
- **Code blocks**: Here's an example:

```javascript
// Example code with syntax highlighting
function processDocument(content) {
  return content.split('\n').map(line => ({
    text: line,
    analysis: performAnalysis(line)
  }));
}
```

- **Reference citations**: This would normally include citations like [1] and [2] when connected to a real backend
- **Streaming responses**: Text appears progressively as it would from the AI

To see the full functionality, please start the backend server at `localhost:8001` and upload a PDF document.".

(** The callbacks that the interval timer of the simulated answer invokes,
    one per tick: every word followed by a space, then [done]. *)
Definition mock_stream (message : string) : list Callback :=
  map (fun word => CallToken (Some (JStr (word +:+ " "))))
      (split " " (mockResponse message))
  ++ [CallDone (JObj [("used_retrieval", JBool false)])].

(** [error instanceof TypeError && error.message.includes('Failed to fetch')] *)
Definition failed_to_fetch (error : Thrown) : bool :=
  match error with
  | ThrownError true m => includes m "Failed to fetch"
  | ThrownError false _ | ThrownValue => false
  end.

(** [error instanceof Error ? error.message : 'Unknown error'] *)
Definition error_text (error : Thrown) : string :=
  match error with
  | ThrownError _ m => m
  | ThrownValue => "Unknown error"
  end.

(** The outer [catch (error)]. *)
Definition catch_block (message : string) (error : Thrown) : list Callback :=
  if failed_to_fetch error then mock_stream message
  else [CallError (JStr (error_text error))].

(** [processChatStream(message, onToken, onCitation, onDone, onError, ...)]
    against what the network does: the callbacks it invokes, in order.
    [new_TextDecoder] is the state of a fresh decoder. *)
Definition processChatStream (new_TextDecoder : decoder) (message : string)
    (net : FetchResult) : list Callback :=
  match net with
  | FetchRejected e => catch_block message e
  | FetchResponse ok statusText body =>
      if negb ok
      then catch_block message (ThrownError false ("Chat request failed: " +:+ statusText))
      else
        match body with
        | None => catch_block message (ThrownError false "No response body")
        | Some b =>
            let '(out, outcome) := read_loop new_TextDecoder EmptyString (chunks b) in
            match outcome, failure b with
            | Ended _, Some e => out ++ catch_block message e
            | _, _ => out
            end
        end
  end.

End Stream.

Arguments read_loop JSON_parse {decoder} decode d buffer chunks.
Arguments decode_chunks {decoder} decode d chunks.
Arguments processChatStream JSON_parse {decoder} decode new_TextDecoder message net.

(** The decoder of a text that is already decoded. *)
Definition pass_through (d : unit) (value : string) : unit * string := (d, value).

(** A decoder works on the stream: nothing comes of no bytes, and decoding
    two runs of bytes one after the other gives the text that decoding them
    as one run gives. *)
Definition streams (decoder : Type) (decode : decoder -> string -> decoder * string)
  : Prop :=
  (forall d, snd (decode d "") = "")
  /\ (forall d a b,
        snd (decode d (a +:+ b)) =
        snd (decode d a) +:+ snd (decode (fst (decode d a)) b)).

(** The failure that the request meets before any part of the body has been
    read: [fetch] rejects, the status is not ok, there is no body, or the
    first read rejects. *)
Definition failure_before_first_byte (net : FetchResult) : option Thrown :=
  match net with
  | FetchRejected e => Some e
  | FetchResponse false statusText _ =>
      Some (ThrownError false ("Chat request failed: " +:+ statusText))
  | FetchResponse true _ None => Some (ThrownError false "No response body")
  | FetchResponse true _ (Some {| chunks := []; failure := Some e |}) => Some e
  | FetchResponse true _ (Some _) => None
  end.

End Transport.

(** ** Session controller (components/ChatInterface.tsx) *)

Module Controller.
Import Js Transport.

(** [type Reference] *)
Record Reference : Type := {
  ref_id : nat;
  ref_text : string;
  ref_page : Z;
  ref_citationId : option string;
  ref_rank : option Z;
  ref_snippet : option string;
  ref_previewUrl : option string;
  ref_fileId : option string
}.

Inductive Role : Type := user | assistant.

(** [type Message] *)
Record Message : Type := {
  msg_id : string;
  msg_type : Role;
  content : string;
  timestamp : Z;
  references : option (list Reference)
}.

(** The argument of the citation callback; a field that the payload lacks
    (or gives as [null]) is [None]. *)
Record CitationData : Type := {
  citation_id : option string;
  c_fileId : option string;
  c_rank : option Z;
  c_page : option Z;
  c_previewUrl : option string;
  c_snippet : option string
}.

Inductive ChatMode : Type := single | global.

Inductive Toast : Type :=
| toast_success (text : string)
| toast_error (text : string).

(** An [AbortController], as far as the component uses it. *)
Record AbortController : Type := { aborted : bool }.

(** The streaming state and the refs that mirror it. *)
Record Pending : Type := {
  currentResponse : string;
  currentReferences : list Reference;
  currentResponseRef : string;
  currentReferencesRef : list Reference;
  citationIdsRef : gset string
}.

(** One mounted [ChatInterface]: its state, its refs, its props, and what it
    has done to its surroundings (toasts shown, calls of [onClearChat]).
    [App] answers a call of [onClearChat] by mounting a fresh component in
    place of this one ([key={chatKey}]). *)
Record State : Type := {
  messages : list Message;
  input : string;
  isTyping : bool;
  chatMode : ChatMode;
  pending : Pending;
  abortRef : option AbortController;
  fileId : option string;
  clock : Z;
  toasts : list Toast;
  onClearChat_calls : nat
}.

Definition initialAssistant : string :=
  "Hello! I'm your AI assistant. You can chat directly, and if you upload a PDF I can answer with document-grounded citations.".

Definition welcome (now : Z) : Message :=
  {| msg_id := "welcome"; msg_type := assistant; content := initialAssistant;
     timestamp := now; references := None |}.

Definition no_pending : Pending :=
  {| currentResponse := ""; currentReferences := [];
     currentResponseRef := ""; currentReferencesRef := [];
     citationIdsRef := ∅ |}.

(** A string prop or field is falsy when it is absent or empty. *)
Definition present (s : option string) : bool :=
  match s with
  | Some x => negb (String.eqb x "")
  | None => false
  end.

(** The component after mounting (the effect on [fileId] has chosen the
    mode). *)
Definition mount (fileId : option string) (now : Z) : State :=
  {| messages := [welcome now]; input := ""; isTyping := false;
     chatMode := if present fileId then single else global;
     pending := no_pending; abortRef := None; fileId := fileId; clock := now;
     toasts := []; onClearChat_calls := 0 |}.

(** [canSend] *)
Definition canSend (st : State) : bool :=
  if blank (input st) || isTyping st then false
  else
    match chatMode st with
    | single => present (fileId st)
    | global => true
    end.

(** [abortRef.current?.abort()] *)
Definition abort_current (r : option AbortController) : option AbortController :=
  match r with
  | Some _ => Some {| aborted := true |}
  | None => None
  end.

Definition with_pending (p : Pending) (st : State) : State :=
  {| messages := messages st; input := input st; isTyping := isTyping st;
     chatMode := chatMode st; pending := p; abortRef := abortRef st;
     fileId := fileId st; clock := clock st; toasts := toasts st;
     onClearChat_calls := onClearChat_calls st |}.

(** [handleSend], up to the call of [processChatStream].  The promise of
    [processChatStream] never rejects (its own [catch] ends every failure), so
    the [catch] of [handleSend] is not reached, and no code follows the
    [await]. *)
Definition handleSend (st : State) : State :=
  if negb (canSend st) then st
  else
    let userMessage :=
      {| msg_id := pretty (clock st); msg_type := user; content := input st;
         timestamp := clock st; references := None |} in
    {| messages := messages st ++ [userMessage]; input := ""; isTyping := true;
       chatMode := chatMode st; pending := no_pending;
       abortRef := abort_current (abortRef st);
       fileId := fileId st; clock := clock st; toasts := toasts st;
       onClearChat_calls := onClearChat_calls st |}.

(** The token callback. *)
Definition onToken (token : string) (st : State) : State :=
  let p := pending st in
  with_pending
    {| currentResponse := currentResponse p +:+ token;
       currentReferences := currentReferences p;
       currentResponseRef := currentResponseRef p +:+ token;
       currentReferencesRef := currentReferencesRef p;
       citationIdsRef := citationIdsRef p |} st.

Definition page_label (page : option Z) : string :=
  match page with
  | Some n => pretty n
  | None => "?"
  end.

(** The citation callback. *)
Definition onCitation (c : CitationData) (st : State) : State :=
  let p := pending st in
  match citation_id c with
  | None => st
  | Some cid =>
      if String.eqb cid "" || bool_decide (cid ∈ citationIdsRef p) then st
      else
        let newRef :=
          {| ref_id := length (currentReferencesRef p) + 1;
             ref_text := "第 " +:+ page_label (c_page c) +:+ " 页相关内容";
             ref_page := default 0%Z (c_page c);
             ref_citationId := Some cid;
             ref_rank := c_rank c;
             ref_snippet := c_snippet c;
             ref_previewUrl := c_previewUrl c;
             ref_fileId := c_fileId c |} in
        with_pending
          {| currentResponse := currentResponse p;
             currentReferences := currentReferences p ++ [newRef];
             currentResponseRef := currentResponseRef p;
             currentReferencesRef := currentReferencesRef p ++ [newRef];
             citationIdsRef := {[cid]} ∪ citationIdsRef p |} st
  end.

(** What is committed for an empty answer. *)
Definition emptyResponse : string := "_（空响应）_".

(** The done callback; [used_retrieval] is [meta?.used_retrieval] as a
    condition. *)
Definition onDone (used_retrieval : bool) (st : State) : State :=
  let finalResponse := currentResponseRef (pending st) in
  let finalRefs := currentReferencesRef (pending st) in
  let assistantMessage :=
    {| msg_id := pretty (clock st + 1)%Z; msg_type := assistant;
       content := if String.eqb finalResponse "" then emptyResponse else finalResponse;
       timestamp := clock st;
       references := match finalRefs with [] => None | _ :: _ => Some finalRefs end |} in
  {| messages := messages st ++ [assistantMessage]; input := input st;
     isTyping := false; chatMode := chatMode st; pending := no_pending;
     abortRef := abortRef st; fileId := fileId st; clock := clock st;
     toasts := toasts st ++
       (if used_retrieval then [toast_success "Response grounded by document context"] else []);
     onClearChat_calls := onClearChat_calls st |}.

Definition errorPrefix : string := "抱歉，处理你的请求时出现错误：".

(** The error callback. *)
Definition onError (errText : string) (st : State) : State :=
  let errorMessage :=
    {| msg_id := pretty (clock st + 1)%Z; msg_type := assistant;
       content := errorPrefix +:+ errText;
       timestamp := clock st; references := None |} in
  {| messages := messages st ++ [errorMessage]; input := input st;
     isTyping := false; chatMode := chatMode st; pending := no_pending;
     abortRef := abortRef st; fileId := fileId st; clock := clock st;
     toasts := toasts st ++ [toast_error "Failed to get response"];
     onClearChat_calls := onClearChat_calls st |}.

(** The events of the stream as the callbacks receive them. *)
Inductive StreamEvent : Type :=
| Token (text : string)
| Citation (c : CitationData)
| Done (used_retrieval : bool)
| Error (message : string).

Definition deliver (st : State) (ev : StreamEvent) : State :=
  match ev with
  | Token text => onToken text st
  | Citation c => onCitation c st
  | Done used => onDone used st
  | Error message => onError message st
  end.

Definition deliver_all (st : State) (evs : list StreamEvent) : State :=
  foldl deliver st evs.

(** Token and citation events, the ones that do not end a turn. *)
Definition is_partial (ev : StreamEvent) : bool :=
  match ev with
  | Token _ | Citation _ => true
  | Done _ | Error _ => false
  end.

(** *** Payloads read at the types that the callbacks declare *)

Definition opt_string (v : jsval) : option (option string) :=
  match v with
  | None | Some JNull => Some None
  | Some (JStr s) => Some (Some s)
  | Some _ => None
  end.

Definition opt_number (v : jsval) : option (option Z) :=
  match v with
  | None | Some JNull => Some None
  | Some (JNum n) => Some (Some n)
  | Some _ => None
  end.

Definition citation_of (data : json) : option CitationData :=
  match data with
  | JObj fields =>
      cid ← opt_string (field "citation_id" fields);
      fid ← opt_string (field "fileId" fields);
      rank ← opt_number (field "rank" fields);
      page ← opt_number (field "page" fields);
      url ← opt_string (field "previewUrl" fields);
      snip ← opt_string (field "snippet" fields);
      Some {| citation_id := cid; c_fileId := fid; c_rank := rank; c_page := page;
              c_previewUrl := url; c_snippet := snip |}
  | _ => None
  end.

(** [meta?.used_retrieval] as a condition. *)
Definition used_retrieval_of (meta : json) : bool :=
  match prop meta "used_retrieval" with
  | Some v => truthy v
  | None => false
  end.

(** The event that a callback invocation is, when its argument has the
    declared type. *)
Definition event_of (cb : Callback) : option StreamEvent :=
  match cb with
  | CallToken (Some (JStr text)) => Some (Token text)
  | CallToken _ => None
  | CallCitation data => Citation <$> citation_of data
  | CallDone meta => Some (Done (used_retrieval_of meta))
  | CallError (JStr message) => Some (Error message)
  | CallError _ => None
  end.

(** The events of a run of callbacks, when every argument has the declared
    type. *)
Fixpoint events_of (cbs : list Callback) : option (list StreamEvent) :=
  match cbs with
  | [] => Some []
  | cb :: rest =>
      match event_of cb, events_of rest with
      | Some ev, Some evs => Some (ev :: evs)
      | _, _ => None
      end
  end.

(** The component after the callbacks of a run of [processChatStream]. *)
Definition after_stream (cbs : list Callback) (st : State) : option State :=
  deliver_all st <$> events_of cbs.

(** The content of the last message. *)
Definition last_content (st : State) : option string :=
  content <$> last (messages st).

(** The run was handled as an error event with some description. *)
Definition handled_as_error (cbs : list Callback) (st : State) : Prop :=
  exists description : string, after_stream cbs st = Some (onError description st).

(** *** Clearing the chat *)

(** What the request of [clearSession] meets: [fetch] rejects, or there is a
    response, whose body may fail to be read as JSON. *)
Inductive ClearFetch : Type :=
| ClearRejected (e : Thrown)
| ClearResponse (ok : bool) (statusText : string) (jsonFailure : option Thrown).

(** [clearSession(sessionId)]: [None] when it resolves, [Some e] when it
    rejects with [e]. *)
Definition clearSession (net : ClearFetch) : option Thrown :=
  match net with
  | ClearRejected e => Some e
  | ClearResponse ok statusText jsonFailure =>
      if negb ok then Some (ThrownError false ("Clear session failed: " +:+ statusText))
      else jsonFailure
  end.

(** [String(error)] of a TypeError. *)
Definition String_of_TypeError (message : string) : string :=
  if String.eqb message "" then "TypeError" else "TypeError: " +:+ message.

(** [error instanceof TypeError && String(error).includes("Failed to fetch")] *)
Definition unreachable (e : Thrown) : bool :=
  match e with
  | ThrownError true m => includes (String_of_TypeError m) "Failed to fetch"
  | ThrownError false _ | ThrownValue => false
  end.

(** [clearChat] up to [await clearSession(threadId)]. *)
Definition clearChat_start (st : State) : State :=
  {| messages := messages st; input := input st; isTyping := isTyping st;
     chatMode := chatMode st; pending := pending st;
     abortRef := abort_current (abortRef st);
     fileId := fileId st; clock := clock st; toasts := toasts st;
     onClearChat_calls := onClearChat_calls st |}.

Definition reset_messages (note : string) (st : State) : State :=
  {| messages := [welcome (clock st)]; input := input st; isTyping := isTyping st;
     chatMode := chatMode st; pending := pending st; abortRef := abortRef st;
     fileId := fileId st; clock := clock st;
     toasts := toasts st ++ [toast_success note];
     onClearChat_calls := S (onClearChat_calls st) |}.

(** [clearChat] from the point where [clearSession] settles. *)
Definition clearChat_settle (net : ClearFetch) (st : State) : State :=
  match clearSession net with
  | None => reset_messages "Chat history cleared" st
  | Some e =>
      if unreachable e then reset_messages "Chat history cleared (Local)" st
      else
        {| messages := messages st; input := input st; isTyping := isTyping st;
           chatMode := chatMode st; pending := pending st; abortRef := abortRef st;
           fileId := fileId st; clock := clock st;
           toasts := toasts st ++ [toast_error "Failed to clear chat history"];
           onClearChat_calls := onClearChat_calls st |}
  end.

Definition clearChat (net : ClearFetch) (st : State) : State :=
  clearChat_settle net (clearChat_start st).

(** What the user and the surroundings do to the component. *)
Definition setInput (text : string) (st : State) : State :=
  {| messages := messages st; input := text; isTyping := isTyping st;
     chatMode := chatMode st; pending := pending st; abortRef := abortRef st;
     fileId := fileId st; clock := clock st; toasts := toasts st;
     onClearChat_calls := onClearChat_calls st |}.

Definition tick (dt : Z) (st : State) : State :=
  {| messages := messages st; input := input st; isTyping := isTyping st;
     chatMode := chatMode st; pending := pending st; abortRef := abortRef st;
     fileId := fileId st; clock := (clock st + dt)%Z; toasts := toasts st;
     onClearChat_calls := onClearChat_calls st |}.

(** *** Notions used to state what a turn commits *)

(** The texts of the token events, in arrival order. *)
Definition token_texts (evs : list StreamEvent) : list string :=
  omap (fun ev => match ev with Token text => Some text | _ => None end) evs.

(** The non-empty citation id of a citation event. *)
Definition cited_id (ev : StreamEvent) : option string :=
  match ev with
  | Citation c =>
      match citation_id c with
      | Some cid => if String.eqb cid "" then None else Some cid
      | None => None
      end
  | _ => None
  end.

(** The non-empty citation ids of a turn, in arrival order, repeats
    included. *)
Definition cited_ids (evs : list StreamEvent) : list string := omap cited_id evs.

(** The distinct elements of a list, each at its first occurrence. *)
Fixpoint first_seen (l : list string) : list string :=
  match l with
  | [] => []
  | x :: rest => x :: filter (fun y => y <> x) (first_seen rest)
  end.

(** The references of a message, none when the field is absent. *)
Definition committed_references (m : Message) : list Reference :=
  default [] (references m).

End Controller.

(** ** Image addresses (components/MarkdownRenderer.tsx) *)

Module Renderer.
Import Js.

Definition API_BASE : string := "http://localhost:8000/api/v1".

Definition is_digit (c : Ascii.ascii) : bool :=
  let n := Ascii.N_of_ascii c in ((48 <=? n) && (n <=? 57))%N.

(** The longest run of decimal digits at the start of the text. *)
Fixpoint digits_prefix (s : string) : string :=
  match s with
  | String c r => if is_digit c then String c (digits_prefix r) else EmptyString
  | EmptyString => EmptyString
  end.

Fixpoint all_digits (s : string) : bool :=
  match s with
  | String c r => is_digit c && all_digits r
  | EmptyString => true
  end.

(** Whether [/\/api\/v\d+$/] matches at the start of the text. *)
Definition api_version_here (s : string) : bool :=
  startsWith s "/api/v"
  && negb (String.eqb (substring_from 6 s) "")
  && all_digits (substring_from 6 s).

(** [s.replace(/\/api\/v\d+$/, "")] *)
Fixpoint strip_api_version (s : string) : string :=
  if api_version_here s then EmptyString
  else
    match s with
    | String c r => String c (strip_api_version r)
    | EmptyString => EmptyString
    end.

Definition API_HOST : string := strip_api_version API_BASE.

(** [toAbsoluteApiUrl] *)
Definition toAbsoluteApiUrl (src : string) : string :=
  if String.eqb src "" then ""
  else if startsWith src "http://" || startsWith src "https://" then src
  else if startsWith src "/api/" then API_HOST +:+ src
  else src.

(** The references that [MarkdownRenderer] is given. *)
Record Reference : Type := {
  id : nat;
  text : option string;
  citationId : option string;
  rank : option Z;
  snippet : option string;
  previewUrl : option string;
  page : option Z;
  fileId : option string
}.

(** A string that is present and not empty (a truthy optional string). *)
Definition truthy_string (s : option string) : bool :=
  match s with
  | Some x => negb (String.eqb x "")
  | None => false
  end.

(** Whether the code unit is the ASCII letter [lower] in either case; these
    are the only code units that the letter matches under the [i] flag. *)
Definition letter (lower c : Ascii.ascii) : bool :=
  let n := Ascii.N_of_ascii c in
  let l := Ascii.N_of_ascii lower in
  ((n =? l) || (n + 32 =? l))%N.

(** The capture of [/page(\d+)/i] when it matches at the start of the text. *)
Definition page_here (s : string) : option string :=
  match s with
  | String p (String a (String g (String e r))) =>
      if letter "p"%char p && letter "a"%char a && letter "g"%char g && letter "e"%char e
         && negb (String.eqb (digits_prefix r) "")
      then Some (digits_prefix r) else None
  | _ => None
  end.

(** [filename.match(/page(\d+)/i)], as its capture group: the leftmost
    match. *)
Fixpoint page_match (s : string) : option string :=
  match page_here s with
  | Some digits => Some digits
  | None =>
      match s with
      | String _ r => page_match r
      | EmptyString => None
      end
  end.

Fixpoint parse_digits (acc : Z) (digits : string) : Z :=
  match digits with
  | String c r => parse_digits (acc * 10 + Z.of_N (Ascii.N_of_ascii c - 48))%Z r
  | EmptyString => acc
  end.

(** The Number for a non-negative integer: the integer itself when it has at
    most 53 significant bits, else the nearest integer with 53 significant
    bits, the one with an even last bit when two are equally near.  Above the
    largest Number the code has [Infinity], which is the page of no
    reference; the value here has more than 1024 bits there, and is the page
    of no reference either, a page being a finite Number. *)
Definition to_number (n : Z) : Z :=
  let e := (Z.log2 n - 52)%Z in
  if (e <=? 0)%Z then n
  else
    let q := Z.shiftr n e in
    let r := (n - Z.shiftl q e)%Z in
    let half := Z.shiftl 1 (e - 1) in
    let q' := if (half <? r)%Z || ((r =? half)%Z && Z.odd q) then (q + 1)%Z else q in
    Z.shiftl q' e.

(** [parseInt(digits, 10)] on a non-empty run of decimal digits. *)
Definition parseInt (digits : string) : Z := to_number (parse_digits 0%Z digits).

(** [src.split("/").pop()] *)
Definition filename_of (src : string) : string := pop_or_empty (split "/" src).

(** [references.find(r => r.page === imgPage && r.fileId)] *)
Definition find_page (imgPage : Z) (references : list Reference) : option Reference :=
  List.find (fun r => bool_decide (page r = Some imgPage) && truthy_string (fileId r))
            references.

(** [references.find(r => r.fileId)] *)
Definition find_any (references : list Reference) : option Reference :=
  List.find (fun r => truthy_string (fileId r)) references.

(** The address of an extracted image, as [fixedSrc] builds it. *)
Definition image_address (targetFileId filename : string) : string :=
  API_BASE +:+ "/pdf/images?fileId=" +:+ targetFileId +:+ "&imagePath=" +:+ filename.

(** [fixedSrc] of [ImgComponent]; the empty string is the unresolved
    result, for which a placeholder is rendered. *)
Definition fixedSrc (props_src : option string) (references : list Reference)
    (fallbackFileId : option string) : string :=
  let src := default "" props_src in
  if String.eqb src "" then ""
  else if startsWith src "http" || startsWith src "/api/" then toAbsoluteApiUrl src
  else if includes src "images/" then
    let filename := filename_of src in
    if String.eqb filename "" then ""
    else
      let imgPage := parseInt <$> page_match filename in
      let targetFileId := fallbackFileId in
      let targetFileId :=
        match references with
        | [] => targetFileId
        | _ :: _ =>
            let targetFileId :=
              match imgPage with
              | Some n =>
                  match find_page n references with
                  | Some matchedRef => fileId matchedRef
                  | None => targetFileId
                  end
              | None => targetFileId
              end in
            if negb (truthy_string targetFileId) then
              match find_any references with
              | Some anyRef => fileId anyRef
              | None => targetFileId
              end
            else targetFileId
        end in
      if truthy_string targetFileId
      then image_address (default "" targetFileId) filename
      else ""
  else "".

(** *** The order of choice, stated apart from the code *)








End Renderer.

(** ** The sanitizing allowlist (components/MarkdownRenderer.tsx) *)

Module Sanitizer.
Import Js.

(** A schema of the sanitizer, as far as [sanitizeSchema] sets it: the tag
    names, the attribute names by tag, the address schemes by attribute. *)
Record Schema : Type := {
  tagNames : list string;
  attributes : gmap string (list string);
  protocols : gmap string (list string)
}.

Section Schema.

(** [defaultSchema] of the sanitizer library. *)
Variable defaultSchema : Schema.

(** [sanitizeSchema] *)
Definition sanitizeSchema : Schema :=
  {| tagNames := tagNames defaultSchema ++ ["img"];
     attributes :=
       <["a" := default [] (attributes defaultSchema !! "a") ++ ["target"; "rel"]]>
       (<["img" := ["src"; "alt"; "title"; "loading"; "width"; "height"; "className"]]>
        (<["*" := default [] (attributes defaultSchema !! "*") ++ ["className"]]>
         (attributes defaultSchema)));
     protocols :=
       <["href" := ["http"; "https"; "mailto"; "tel"]]>
       (<["src" := ["http"; "https"; "data"; "blob"]]>
        (protocols defaultSchema)) |}.

End Schema.

(** The text before the first colon, when the address has one. *)
Fixpoint before_colon (address : string) : option string :=
  match address with
  | EmptyString => None
  | String c r =>
      if Ascii.eqb c ":"%char then Some EmptyString
      else String c <$> before_colon r
  end.

(** Modelled from the spec: the address filter of the sanitizing stage, which
    is the work of the sanitizer library and not of the sources.  The scheme
    of an address is the text before its first colon; an address with a
    scheme is kept, unchanged, when the schema lists the scheme for the
    attribute, and is dropped otherwise; there is no error result. *)
Definition sanitize_address (schema : Schema) (attribute address : string)
  : option string :=
  match before_colon address, protocols schema !! attribute with
  | Some scheme, Some allowed =>
      if bool_decide (scheme ∈ allowed) then Some address else None
  | _, _ => Some address
  end.

End Sanitizer.

(** ** A decoder for the examples *)

(** The properties of the transport hold for every [JSON.parse] and every
    decoder.  To run the transport on concrete streams, [Sample.parse] decodes
    the texts that are one flat object whose values are strings without
    escapes, integers, [true], [false] or [null], as [JSON.parse] does, and
    rejects every other text; the streams are ASCII, for which
    [Transport.pass_through] is the decoder. *)
Module Sample.
Import Js Transport.

Definition is_ws (c : Ascii.ascii) : bool :=
  let n := Ascii.N_of_ascii c in ((n =? 32) || (n =? 9) || (n =? 10) || (n =? 13))%N.

Fixpoint skip_ws (s : string) : string :=
  match s with
  | String c r => if is_ws c then skip_ws r else s
  | EmptyString => s
  end.

(** The characters of a string literal after its opening quote, and the text
    after its closing quote. *)
Fixpoint read_string (s : string) : option (string * string) :=
  match s with
  | EmptyString => None
  | String c r =>
      let n := Ascii.N_of_ascii c in
      if (n =? 34)%N then Some (EmptyString, r)
      else if ((n =? 92) || (n <? 32))%N then None
      else
        match read_string r with
        | Some (x, rest) => Some (String c x, rest)
        | None => None
        end
  end.

(** An integer literal at the start of the text, and the text after it. *)
Definition read_integer (s : string) : option (Z * string) :=
  let '(negative, body) :=
    match s with
    | String "-" r => (true, r)
    | _ => (false, s)
    end in
  let digits := Renderer.digits_prefix body in
  let rest := substring_from (String.length digits) body in
  let plain :=
    match digits with
    | EmptyString => false
    | String "0" (String _ _) => false
    | _ => true
    end in
  let ends :=
    match rest with
    | String c _ => negb (Ascii.eqb c "." || Ascii.eqb c "e" || Ascii.eqb c "E")
    | EmptyString => true
    end in
  if plain && ends
  then Some (if negative then (- Renderer.parseInt digits)%Z else Renderer.parseInt digits, rest)
  else None.

Definition read_value (s : string) : option (json * string) :=
  match s with
  | String c r =>
      if (Ascii.N_of_ascii c =? 34)%N then
        match read_string r with
        | Some (x, rest) => Some (JStr x, rest)
        | None => None
        end
      else if startsWith s "true" then Some (JBool true, substring_from 4 s)
      else if startsWith s "false" then Some (JBool false, substring_from 5 s)
      else if startsWith s "null" then Some (JNull, substring_from 4 s)
      else
        match read_integer s with
        | Some (n, rest) => Some (JNum n, rest)
        | None => None
        end
  | EmptyString => None
  end.

(** The members of an object after its opening brace. *)
Fixpoint read_members (fuel : nat) (s : string) : option (list (string * json)) :=
  match fuel with
  | O => None
  | S fuel' =>
      match skip_ws s with
      | String c r =>
          if (Ascii.N_of_ascii c =? 34)%N then
            match read_string r with
            | Some (key, rest) =>
                match skip_ws rest with
                | String ":" rest1 =>
                    match read_value (skip_ws rest1) with
                    | Some (v, rest2) =>
                        match skip_ws rest2 with
                        | String "," rest3 =>
                            match read_members fuel' rest3 with
                            | Some more =>
                                match field key more with
                                | None => Some ((key, v) :: more)
                                | Some _ => None
                                end
                            | None => None
                            end
                        | String "}" rest3 =>
                            if String.eqb (skip_ws rest3) "" then Some [(key, v)] else None
                        | _ => None
                        end
                    | None => None
                    end
                | _ => None
                end
            | None => None
            end
          else None
      | EmptyString => None
      end
  end.

Definition parse (s : string) : option json :=
  match skip_ws s with
  | String "{" r =>
      match skip_ws r with
      | String "}" rest => if String.eqb (skip_ws rest) "" then Some (JObj []) else None
      | _ => JObj <$> read_members (String.length r) r
      end
  | _ => None
  end.

(** The text of a string literal. *)
Definition quoted (s : string) : string := DQ +:+ s +:+ DQ.

(** One framed block: the type line, the payload line, the blank line. *)
Definition block (eventType payload : string) : string :=
  "event: " +:+ eventType +:+ LF +:+ "data: " +:+ payload +:+ LFLF.

End Sample.

(** ** Concrete sessions, streams and references *)

Module Scenario.
Import Js Transport.

(** A component mounted without a document, with a question typed in. *)
Definition asking : Controller.State :=
  Controller.setInput "How to install?" (Controller.mount None 1000).

Definition citation (cid : string) (page : Z) (file : string) : Controller.CitationData :=
  {| Controller.citation_id := Some cid; Controller.c_fileId := Some file;
     Controller.c_rank := None; Controller.c_page := Some page;
     Controller.c_previewUrl := None; Controller.c_snippet := None |}.

(** The answer of the end-to-end scenario, before its done event. *)
Definition answer : list Controller.StreamEvent :=
  [Controller.Citation (citation "c1" 3 "f1"); Controller.Token "Connect ";
   Controller.Token "the "; Controller.Token "cable."].

(** A turn in which citation ids repeat and one is empty. *)
Definition repeated : list Controller.StreamEvent :=
  [Controller.Citation (citation "c2" 7 "f1"); Controller.Token "See ";
   Controller.Citation (citation "c1" 3 "f1");
   Controller.Citation (citation "c2" 7 "f1");
   Controller.Citation (citation "" 1 "f1");
   Controller.Citation (citation "c3" 9 "f2");
   Controller.Citation (citation "c1" 3 "f1")].

(** The same answer as the server frames it. *)
Definition citation_payload : string :=
  "{" +:+ Sample.quoted "citation_id" +:+ ":" +:+ Sample.quoted "c1" +:+ ","
  +:+ Sample.quoted "fileId" +:+ ":" +:+ Sample.quoted "f1" +:+ ","
  +:+ Sample.quoted "page" +:+ ":3}".

Definition token_payload (text : string) : string :=
  "{" +:+ Sample.quoted "text" +:+ ":" +:+ Sample.quoted text +:+ "}".

Definition done_payload : string :=
  "{" +:+ Sample.quoted "used_retrieval" +:+ ":true}".

Definition answer_text : string :=
  Sample.block "citation" citation_payload
  +:+ Sample.block "token" (token_payload "Connect ")
  +:+ Sample.block "token" (token_payload "the ")
  +:+ Sample.block "token" (token_payload "cable.")
  +:+ Sample.block "done" done_payload.

(** The text of the answer cut at arbitrary places: inside a type line, between
    the two line feeds of a delimiter, and inside a payload. *)
Definition answer_chunks : list string :=
  [ "event: cita";
    "tion" +:+ LF +:+ "data: " +:+ citation_payload +:+ LF;
    LF +:+ Sample.block "token" (token_payload "Connect ") +:+ "event: token" +:+ LF +:+ "data: {";
    Sample.quoted "text" +:+ ":" +:+ Sample.quoted "the " +:+ "}" +:+ LFLF
      +:+ Sample.block "token" (token_payload "cable.");
    Sample.block "done" done_payload ].

(** An answer whose last block lacks the closing blank line. *)
Definition unterminated_chunks : list string :=
  [ Sample.block "token" (token_payload "Connect ");
    "event: done" +:+ LF +:+ "data: " +:+ done_payload ].

(** A turn in which the user presses Clear while the answer streams, and the
    server answers the clear request with an error status. *)
Definition streaming : Controller.State :=
  Controller.onToken "a" (Controller.handleSend asking).

Definition clear_refused : Controller.ClearFetch :=
  Controller.ClearResponse false "Internal Server Error" None.

Definition after_clear : Controller.State :=
  Controller.clearChat clear_refused streaming.

(** [fetch] rejecting because the server cannot be reached. *)
Definition offline : Thrown := ThrownError true "Failed to fetch".

(** The references of the resolver example of the design document. *)
Definition reference (n : nat) (p : Z) (file : string) : Renderer.Reference :=
  {| Renderer.id := n; Renderer.text := None; Renderer.citationId := None;
     Renderer.rank := None; Renderer.snippet := None; Renderer.previewUrl := None;
     Renderer.page := Some p; Renderer.fileId := Some file |}.

Definition two_references : list Renderer.Reference :=
  [reference 1 22 "f1"; reference 2 5 "f2"].

(** A default schema of the sanitizer, for the examples. *)
Definition plain_schema : Sanitizer.Schema :=
  {| Sanitizer.tagNames := ["p"; "a"];
     Sanitizer.attributes := {["a" := ["href"]]};
     Sanitizer.protocols := {["href" := ["http"; "https"; "irc"]]} |}.

End Scenario.

(** ** The component over time (components/ChatInterface.tsx) *)

Module Session.
Import Js Transport Controller.

(** [setChatMode], the handler of the mode tabs. *)
Definition setChatMode (mode : ChatMode) (st : State) : State :=
  {| messages := messages st; input := input st; isTyping := isTyping st;
     chatMode := mode; pending := pending st; abortRef := abortRef st;
     fileId := fileId st; clock := clock st; toasts := toasts st;
     onClearChat_calls := onClearChat_calls st |}.

(** The parent passes another [fileId]; the effect on [fileId] then chooses
    the mode.  The effect does not run when the prop is the same value. *)
Definition setFileId (file : option string) (st : State) : State :=
  if bool_decide (file = fileId st) then st
  else
    {| messages := messages st; input := input st; isTyping := isTyping st;
       chatMode := if present file then single else global;
       pending := pending st; abortRef := abortRef st;
       fileId := file; clock := clock st; toasts := toasts st;
       onClearChat_calls := onClearChat_calls st |}.

(** What happens to a mounted component: the user types, presses send or
    Clear or a mode tab, the parent selects a file, time passes, and the
    stream of the running request invokes a callback. *)
Inductive Action : Type :=
| Type_ (text : string)
| Send
| Clear (net : ClearFetch)
| Mode (mode : ChatMode)
| File (file : option string)
| Tick (dt : Z)
| Stream (ev : StreamEvent).

Definition act (st : State) (a : Action) : State :=
  match a with
  | Type_ text => setInput text st
  | Send => handleSend st
  | Clear net => clearChat net st
  | Mode mode => setChatMode mode st
  | File file => setFileId file st
  | Tick dt => tick dt st
  | Stream ev => deliver st ev
  end.

Definition run (st : State) (actions : list Action) : State := foldl act st actions.

(** The references of a pending turn or of a message are well numbered:
    numbered 1..n in order, each with a citation id that is not empty, no id
    twice. *)
Definition well_numbered (refs : list Reference) : Prop :=
  map ref_id refs = seq 1 (length refs)
  /\ NoDup (map ref_citationId refs)
  /\ Forall (fun r => exists cid, ref_citationId r = Some cid /\ cid <> "") refs.

(** The pending turn is coherent: the state that is rendered equals the refs
    that the callbacks read, and the seen-set holds exactly the citation ids
    of the pending references. *)
Definition coherent (p : Pending) : Prop :=
  currentResponse p = currentResponseRef p
  /\ currentReferences p = currentReferencesRef p
  /\ (forall cid, cid ∈ citationIdsRef p <->
                  Some cid ∈ map ref_citationId (currentReferencesRef p))
  /\ well_numbered (currentReferencesRef p).

(** A committed message is sound: it has some content, and its references
    are well numbered. *)
Definition sound (m : Message) : Prop :=
  content m <> "" /\ well_numbered (committed_references m).

(** What every action keeps: a coherent pending turn, no abort controller,
    sound messages, the welcome message first. *)
Definition kept (st : State) : Prop :=
  coherent (pending st)
  /\ abortRef st = None
  /\ Forall sound (messages st)
  /\ exists (now : Z) (rest : list Message), messages st = welcome now :: rest.

(** The citation events of a turn, in arrival order. *)
Definition citations (evs : list StreamEvent) : list CitationData :=
  omap (fun ev => match ev with Citation c => Some c | _ => None end) evs.

End Session.

(** ** Notions used to state how the body is framed *)

Module Framing.
Import Js Transport.

(** The text holds no occurrence of the code unit. *)
Fixpoint lacks (c : Ascii.ascii) (s : string) : bool :=
  match s with
  | EmptyString => true
  | String c' r => negb (Ascii.eqb c' c) && lacks c r
  end.

(** The text holds no line feed. *)
Definition one_line (s : string) : bool := lacks (Ascii.ascii_of_nat 10) s.

(** Put a text in front of the first piece of a split. *)
Definition prepend (a : string) (pieces : list string) : list string :=
  match pieces with
  | [] => [a]
  | h :: tl => (a +:+ h) :: tl
  end.

(** Every callback but the last of a run. *)
Definition all_but_last (cbs : list Callback) : list Callback := List.removelast cbs.

(** No callback of the run ends a turn. *)
Definition none_terminal (cbs : list Callback) : bool :=
  forallb (fun cb => negb (is_terminal cb)) cbs.

End Framing.

(** ** Addresses of the backend (services/api.ts) *)

Module Api.
Import Js.

(** The code units that [encodeURIComponent] leaves as they are: the ASCII
    letters and digits and [- _ . ! ~ * ' ( )]. *)
Definition unreserved (c : Ascii.ascii) : bool :=
  let n := Ascii.N_of_ascii c in
  ((65 <=? n) && (n <=? 90) || (97 <=? n) && (n <=? 122) || (48 <=? n) && (n <=? 57)
   || (n =? 45) || (n =? 95) || (n =? 46) || (n =? 33) || (n =? 126)
   || (n =? 42) || (n =? 39) || (n =? 40) || (n =? 41))%N.

(** The upper-case hexadecimal digit of a number below 16. *)
Definition hex_digit (n : N) : Ascii.ascii :=
  Ascii.ascii_of_N (if (n <? 10)%N then 48 + n else 55 + n).

(** The escape of one byte: a percent sign and two hexadecimal digits. *)
Definition percent (c : Ascii.ascii) : string :=
  let n := Ascii.N_of_ascii c in
  String "%" (String (hex_digit (n / 16)) (String (hex_digit (n mod 16)) EmptyString)).

(** [encodeURIComponent(s)] on the UTF-8 bytes of a well-formed string. *)
Fixpoint encodeURIComponent (s : string) : string :=
  match s with
  | EmptyString => EmptyString
  | String c r =>
      if unreserved c then String c (encodeURIComponent r)
      else percent c +:+ encodeURIComponent r
  end.

(** The value of a hexadecimal digit. *)
Definition unhex (c : Ascii.ascii) : N :=
  let n := Ascii.N_of_ascii c in
  (if n <? 58 then n - 48 else n - 55)%N.

(** The reading of what [encodeURIComponent] writes: an escape gives back its
    byte, any other code unit stands for itself. *)
Fixpoint percent_decode (s : string) : string :=
  match s with
  | String "%" (String h (String l r)) =>
      String (Ascii.ascii_of_N (16 * unhex h + unhex l)) (percent_decode r)
  | String c r => String c (percent_decode r)
  | EmptyString => EmptyString
  end.

(** Every code unit of the text is unreserved or a percent sign. *)
Fixpoint escaped (s : string) : bool :=
  match s with
  | EmptyString => true
  | String c r => (unreserved c || Ascii.eqb c "%") && escaped r
  end.

Section Env.

(** [import.meta.env.VITE_API_BASE_URL] *)
Variable VITE_API_BASE_URL : option string.

Definition API_BASE_URL : string :=
  if Renderer.truthy_string VITE_API_BASE_URL
  then default "" VITE_API_BASE_URL
  else "http://localhost:8000/api/v1".

Inductive PageType : Type := original | parsed.

Definition page_type (type : PageType) : string :=
  match type with
  | original => "original"
  | parsed => "parsed"
  end.

(** [getPdfPageUrl] *)
Definition getPdfPageUrl (fileId : string) (page : Z) (type : PageType) : string :=
  API_BASE_URL +:+ "/pdf/page?fileId=" +:+ encodeURIComponent fileId
  +:+ "&page=" +:+ pretty page +:+ "&type=" +:+ page_type type.

(** [getExtractedImageUrl] *)
Definition getExtractedImageUrl (fileId imagePath : string) : string :=
  API_BASE_URL +:+ "/pdf/images?fileId=" +:+ encodeURIComponent fileId
  +:+ "&imagePath=" +:+ encodeURIComponent imagePath.

End Env.

End Api.

(** ** Content and reference cards (components/MarkdownRenderer.tsx, App.tsx) *)

Module Markdown.
Import Js Renderer.

(** [imageFileId]: the file id of the first reference that has one, else the
    fallback, else the empty string. *)
Definition imageFileId (references : list Reference) (fallbackFileId : option string)
  : string :=
  match find_any references with
  | Some refWithFileId => default "" (fileId refWithFileId)
  | None => default "" fallbackFileId
  end.

(** The text holds a [>]. *)
Fixpoint has_gt (s : string) : bool :=
  match s with
  | EmptyString => false
  | String c r => Ascii.eqb c ">" || has_gt r
  end.

(** Whether [/<img[\s\S]*?>/i] matches at the start of the text. *)
Definition img_here (s : string) : bool :=
  match s with
  | String a (String b (String c (String d r))) =>
      Ascii.eqb a "<" && letter "i" b && letter "m" c && letter "g" d && has_gt r
  | _ => false
  end.

(** [content.replace(/<img[\s\S]*?>/gi, "")]; [inside] holds from the [<] of a
    match until its first [>] has been passed. *)
Fixpoint strip_img_from (inside : bool) (s : string) : string :=
  match s with
  | EmptyString => EmptyString
  | String c r =>
      if inside then strip_img_from (negb (Ascii.eqb c ">")) r
      else if img_here s then strip_img_from true r
      else String c (strip_img_from false r)
  end.

Definition strip_img (content : string) : string := strip_img_from false content.

(** The longest start of the text without the code unit. *)
Fixpoint until (stop : Ascii.ascii) (s : string) : string :=
  match s with
  | EmptyString => EmptyString
  | String c r => if Ascii.eqb c stop then EmptyString else String c (until stop r)
  end.

(** A match of the image pattern at the start of the text: an exclamation
    mark, the alternative text in brackets (any code units but a closing
    bracket), and in parentheses a path that starts with [./images/] and goes
    on with one or more code units that are not a closing parenthesis.  The
    result is the two groups (the alternative text, the path from [images/]
    on) and the length of the match. *)
Definition image_here (s : string) : option (string * string * nat) :=
  if startsWith s "![" then
    let alt := until "]" (substring_from 2 s) in
    let after_alt := substring_from (2 + String.length alt) s in
    if startsWith after_alt "](./images/" then
      let name := until ")" (substring_from 11 after_alt) in
      let after_name := substring_from (11 + String.length name) after_alt in
      if negb (String.eqb name "") && startsWith after_name ")"
      then Some (alt, "images/" +:+ name, 2 + String.length alt + 11 + String.length name + 1)
      else None
    else None
  else None.

(** What the replacer returns for a match. *)
Definition rewritten (imageFileId alt imagePath : string) : string :=
  "![" +:+ alt +:+ "]("
  +:+ API_BASE +:+ "/pdf/images?fileId=" +:+ Api.encodeURIComponent imageFileId
  +:+ "&imagePath=" +:+ Api.encodeURIComponent (filename_of imagePath)
  +:+ ")".

(** [processed.replace(/!\[...\]\(\.\/(images\/...)\)/g, replacer)]; [skip]
    counts the code units of a match that are still to be passed over. *)
Fixpoint rewrite_images_from (imageFileId : string) (skip : nat) (s : string) : string :=
  match s with
  | EmptyString => EmptyString
  | String c r =>
      match skip with
      | S k => rewrite_images_from imageFileId k r
      | O =>
          match image_here s with
          | Some (alt, imagePath, n) =>
              rewritten imageFileId alt imagePath
              +:+ rewrite_images_from imageFileId (n - 1) r
          | None => String c (rewrite_images_from imageFileId O r)
          end
      end
  end.

(** [sanitizedContent] *)
Definition sanitizedContent (content : string) (references : list Reference)
    (fallbackFileId : option string) : string :=
  let processed := strip_img content in
  let id := imageFileId references fallbackFileId in
  if negb (String.eqb id "") then rewrite_images_from id O processed else processed.

(** The props of a [ReferenceCard]. *)
Record Card : Type := {
  card_citationId : string;
  index : nat;
  card_snippet : option string;
  card_page : Z;
  card_fileId : option string
}.

(** The cards below the content:
    [references.filter(r => !!r.citationId).map((r, i) => ...)]. *)
Definition cards (references : list Reference) : list Card :=
  imap (fun i r =>
          {| card_citationId := default "" (citationId r); index := i;
             card_snippet := snippet r; card_page := default 0%Z (page r);
             card_fileId := fileId r |})
       (List.filter (fun r => truthy_string (citationId r)) references).

(** The number that a card shows. *)
Definition shown_number (card : Card) : nat := index card + 1.

(** The state of [App]. *)
Record App : Type := {
  chatKey : nat;
  currentFileId : string;
  currentFileName : string;
  currentTotalPages : Z;
  targetPage : Z
}.

(** [handleCitationClick] of [App]. *)
Definition handleCitationClick (page : Z) (file : option string) (app : App) : App :=
  let app1 :=
    if truthy_string file && negb (String.eqb (default "" file) (currentFileId app))
    then {| chatKey := chatKey app; currentFileId := default "" file;
            currentFileName := "Loading..."; currentTotalPages := 0;
            targetPage := targetPage app |}
    else app in
  if (0 <? page)%Z
  then {| chatKey := chatKey app1; currentFileId := currentFileId app1;
          currentFileName := currentFileName app1;
          currentTotalPages := currentTotalPages app1; targetPage := page |}
  else app1.

(** The click handler of a card, with [handleCitationClick] as its
    [onCitationClick]. *)
Definition card_click (card : Card) (app : App) : App :=
  if (0 <? card_page card)%Z
  then handleCitationClick (card_page card) (card_fileId card) app
  else app.

(** The references of a committed message as [MarkdownRenderer] receives
    them. *)
Definition as_prop (r : Controller.Reference) : Reference :=
  {| id := Controller.ref_id r; text := Some (Controller.ref_text r);
     citationId := Controller.ref_citationId r; rank := Controller.ref_rank r;
     snippet := Controller.ref_snippet r; previewUrl := Controller.ref_previewUrl r;
     page := Some (Controller.ref_page r); fileId := Controller.ref_fileId r |}.

End Markdown.

(** * Properties *)

(** ** Facts about the string primitives *)

Module JsFacts.
Import Js.

Lemma sapp_cons (c : Ascii.ascii) (s t : string) :
  String c s +:+ t = String c (s +:+ t).
Proof. reflexivity. Qed.

Lemma sapp_nil_l (s : string) : "" +:+ s = s.
Proof. reflexivity. Qed.

Lemma slength_app (s t : string) :
  String.length (s +:+ t) = String.length s + String.length t.
Proof.
  induction s as [|c s IH]; [reflexivity|].
  rewrite sapp_cons. cbn [String.length]. now rewrite IH.
Qed.

Lemma sapp_nil_r (s : string) : s +:+ "" = s.
Proof.
  induction s as [|c s IH]; [reflexivity|]. now rewrite sapp_cons, IH.
Qed.

Lemma sapp_assoc (s t u : string) : (s +:+ t) +:+ u = s +:+ (t +:+ u).
Proof.
  induction s as [|c s IH]; [reflexivity|]. now rewrite !sapp_cons, IH.
Qed.

Lemma prefix_length (p s : string) :
  String.prefix p s = true -> String.length p <= String.length s.
Proof.
  revert s; induction p as [|a p IH]; intros [|b s]; simpl; try lia; try discriminate.
  destruct (Ascii.ascii_dec a b); [|discriminate].
  intros H; apply IH in H; lia.
Qed.

Lemma prefix_app_long (p s t : string) :
  String.length p <= String.length s ->
  String.prefix p (s +:+ t) = String.prefix p s.
Proof.
  revert s; induction p as [|a p IH]; intros s H.
  - now destruct (s +:+ t), s.
  - destruct s as [|b s]; simpl in *; [lia|].
    destruct (Ascii.ascii_dec a b); [apply IH; lia | reflexivity].
Qed.

Lemma prefix_app (p s t : string) :
  String.prefix p s = true -> String.prefix p (s +:+ t) = true.
Proof.
  intros H. rewrite prefix_app_long; [exact H | now apply prefix_length].
Qed.

Lemma substring_from_app (n : nat) (s t : string) :
  n <= String.length s ->
  substring_from n (s +:+ t) = substring_from n s +:+ t.
Proof.
  revert s; induction n as [|n IH]; intros [|c s]; simpl; intros H;
    try reflexivity; try lia.
  apply IH; lia.
Qed.

Lemma substring_from_length (n : nat) (s : string) :
  String.length (substring_from n s) = String.length s - n.
Proof.
  revert s; induction n as [|n IH]; intros [|c s]; simpl; try lia. apply IH.
Qed.

(** Passing over the rest of a matched separator is the same as splitting
    what follows it. *)
Lemma split_skip_substring (sep : string) (k : nat) (s : string) :
  split_skip sep k s = split sep (substring_from k s).
Proof.
  revert k; induction s as [|c s IH]; intros [|k]; try reflexivity.
  simpl. apply IH.
Qed.

Lemma split_cons (sep : string) (c : Ascii.ascii) (s : string) :
  split sep (String c s) =
  if String.prefix sep (String c s)
  then "" :: split sep (substring_from (String.length sep - 1) s)
  else cons_first c (split sep s).
Proof.
  unfold split at 1. simpl split_skip.
  now rewrite split_skip_substring.
Qed.

Lemma split_nonempty (sep s : string) : split sep s <> [].
Proof.
  destruct s as [|c s]; [discriminate|].
  rewrite split_cons. destruct (String.prefix sep (String c s)); [discriminate|].
  destruct (split sep s); discriminate.
Qed.

Lemma split_single (sep s x : string) : split sep s = [x] -> x = s.
Proof.
  revert x; induction s as [|c s IH]; intros x.
  - cbn. congruence.
  - rewrite split_cons. destruct (String.prefix sep (String c s)).
    + intros H. injection H as _ H. now apply split_nonempty in H.
    + destruct (split sep s) as [|h tl] eqn:E; [now apply split_nonempty in E|].
      cbn. intros H. injection H as <- ->. now rewrite (IH h eq_refl).
Qed.

Lemma split_matched_length (sep s : string) :
  2 <= length (split sep s) -> String.length sep <= String.length s.
Proof.
  induction s as [|c s IH].
  - cbn. lia.
  - rewrite split_cons. destruct (String.prefix sep (String c s)) eqn:P.
    + intros _. now apply prefix_length.
    + destruct (split sep s) as [|h tl]; cbn in *; lia.
Qed.

Lemma popped_cons (x : string) (l : list string) :
  l <> [] -> popped (x :: l) = x :: popped l.
Proof. destruct l; [congruence | reflexivity]. Qed.

Lemma pop_cons (x : string) (l : list string) :
  l <> [] -> pop_or_empty (x :: l) = pop_or_empty l.
Proof. destruct l; [congruence | reflexivity]. Qed.

(** The pieces of [s +:+ t]: the complete pieces of [s], then the pieces of
    what [s] left over followed by [t]. *)
Lemma split_app (sep s t : string) :
  sep <> "" ->
  split sep (s +:+ t) =
  popped (split sep s) ++ split sep (pop_or_empty (split sep s) +:+ t).
Proof.
  intros Hsep.
  remember (String.length s) as n eqn:Hn.
  revert s Hn. induction n as [n IH] using lt_wf_ind. intros s Hn.
  destruct s as [|c s]; [reflexivity|].
  destruct (split sep (String c s)) as [|x [|y l]] eqn:E.
  - now apply split_nonempty in E.
  - apply split_single in E. subst x. reflexivity.
  - assert (Hlen : String.length sep <= String.length (String c s)).
    { apply split_matched_length. rewrite E. cbn. lia. }
    rewrite <- E. clear E x y l.
    change (String c s +:+ t) with (String c (s +:+ t)).
    rewrite !split_cons.
    change (String c (s +:+ t)) with (String c s +:+ t).
    rewrite (prefix_app_long _ _ _ Hlen).
    destruct (String.prefix sep (String c s)) eqn:P.
    + assert (Hk : String.length sep - 1 <= String.length s).
      { apply prefix_length in P. cbn in P. lia. }
      rewrite substring_from_app by exact Hk.
      rewrite popped_cons, pop_cons by apply split_nonempty.
      cbn [app]. f_equal.
      apply (IH (String.length (substring_from (String.length sep - 1) s))).
      * rewrite substring_from_length. subst n. cbn. lia.
      * reflexivity.
    + rewrite (IH (String.length s)) by (subst n; cbn; lia || reflexivity).
      destruct (split sep s) as [|h [|h2 tl]] eqn:E.
      * now apply split_nonempty in E.
      * apply split_single in E. subst h. cbn.
        change (String c s +:+ t) with (String c (s +:+ t)).
        rewrite split_cons.
        change (String c (s +:+ t)) with (String c s +:+ t).
        rewrite (prefix_app_long _ _ _ Hlen), P. reflexivity.
      * reflexivity.
Qed.

(** What a split leaves over holds no separator. *)
Lemma split_pop (sep s : string) :
  split sep (pop_or_empty (split sep s)) = [pop_or_empty (split sep s)].
Proof.
  remember (String.length s) as n eqn:Hn.
  revert s Hn. induction n as [n IH] using lt_wf_ind. intros s Hn.
  destruct s as [|c s]; [reflexivity|].
  destruct (split sep (String c s)) as [|x [|y l]] eqn:E.
  - now apply split_nonempty in E.
  - pose proof (split_single _ _ _ E) as ->. exact E.
  - rewrite <- E. assert (Hlen := f_equal length E). clear E.
    rewrite split_cons in *.
    destruct (String.prefix sep (String c s)) eqn:P.
    + rewrite pop_cons by apply split_nonempty.
      apply (IH (String.length (substring_from (String.length sep - 1) s))).
      * rewrite substring_from_length. subst n. cbn. lia.
      * reflexivity.
    + destruct (split sep s) as [|h [|h2 tl]] eqn:E; try (cbn in Hlen; lia).
      change (pop_or_empty (cons_first c (h :: h2 :: tl)))
        with (pop_or_empty (h :: h2 :: tl)).
      rewrite <- E. apply (IH (String.length s)); [subst n; cbn; lia | reflexivity].
Qed.

Lemma popped_app (a b : list string) :
  b <> [] -> popped (a ++ b) = a ++ popped b.
Proof. intros H. unfold popped. now apply removelast_app. Qed.

Lemma pop_app (a b : list string) :
  b <> [] -> pop_or_empty (a ++ b) = pop_or_empty b.
Proof.
  intros H. induction a as [|x a IH]; [reflexivity|].
  change ((x :: a) ++ b) with (x :: (a ++ b)).
  rewrite pop_cons; [exact IH | now destruct a, b].
Qed.

Lemma concat_app (a b : list string) : concat (a ++ b) = concat a +:+ concat b.
Proof.
  induction a as [|x a IH]; [reflexivity|].
  cbn [app concat foldr]. fold (concat (a ++ b)) (concat a).
  now rewrite IH, sapp_assoc.
Qed.

End JsFacts.

(** ** The stream transport *)

Module TransportFacts.
Import Js JsFacts Transport.

Section Stream.

Variable JSON_parse : string -> option json.

Lemma LFLF_nonempty : LFLF <> "".
Proof. discriminate. Qed.

Lemma handle_events_app (a b : list string) :
  handle_events JSON_parse (a ++ b) =
  let '(out1, returned1) := handle_events JSON_parse a in
  if returned1 then (out1, true)
  else let '(out2, returned2) := handle_events JSON_parse b in
       (out1 ++ out2, returned2).
Proof.
  induction a as [|event a IH]; cbn [app handle_events].
  - now destruct (handle_events JSON_parse b).
  - destruct (handle_event JSON_parse event) as [cb|]; [|exact IH].
    destruct (is_terminal cb); [reflexivity|].
    rewrite IH. destruct (handle_events JSON_parse a) as [out1 [|]]; [reflexivity|].
    now destruct (handle_events JSON_parse b).
Qed.

(** Reading texts chunk by chunk from a buffer that holds no complete block
    is reading the buffer and all the chunks as one chunk. *)
Lemma read_loop_whole (chunks : list string) (buffer : string) :
  split LFLF buffer = [buffer] ->
  read_loop JSON_parse pass_through tt buffer chunks =
  read_loop JSON_parse pass_through tt "" [buffer +:+ concat chunks].
Proof.
  revert buffer. induction chunks as [|value rest IH]; intros buffer Hbuf.
  - cbn [concat foldr]. rewrite sapp_nil_r. cbn [read_loop pass_through].
    rewrite sapp_nil_l, Hbuf. reflexivity.
  - cbn [concat foldr]. fold (concat rest).
    cbn [read_loop pass_through]. rewrite sapp_nil_l.
    rewrite <- sapp_assoc.
    rewrite (split_app LFLF (buffer +:+ value) (concat rest) LFLF_nonempty).
    set (events := split LFLF (buffer +:+ value)).
    rewrite (IH (pop_or_empty events)) by apply split_pop.
    cbn [read_loop pass_through]. rewrite sapp_nil_l.
    set (events' := split LFLF (pop_or_empty events +:+ concat rest)).
    rewrite popped_app, pop_app by apply split_nonempty.
    rewrite handle_events_app.
    destruct (handle_events JSON_parse (popped events)) as [out1 [|]]; [reflexivity|].
    destruct (handle_events JSON_parse (popped events')) as [out2 [|]]; [reflexivity|].
    cbn. now rewrite !List.app_nil_r.
Qed.

Lemma handle_events_open (events : list string) (out : list Callback) :
  handle_events JSON_parse events = (out, false) ->
  forallb (fun cb => negb (is_terminal cb)) out = true.
Proof.
  revert out. induction events as [|event rest IH]; intros out; cbn [handle_events].
  - intros [= <-]. reflexivity.
  - destruct (handle_event JSON_parse event) as [cb|]; [|apply IH].
    destruct (is_terminal cb) eqn:T; [discriminate|].
    destruct (handle_events JSON_parse rest) as [out' returned].
    intros [= <- ->]. cbn. rewrite T. now apply IH.
Qed.

Section Decoder.

Variable decoder : Type.
Variable decode : decoder -> string -> decoder * string.

(** The loop sees the chunks only through the texts that the decoder gives
    for them. *)
Lemma read_loop_decoded (chunks : list string) (d : decoder) (buffer : string) :
  read_loop JSON_parse decode d buffer chunks =
  read_loop JSON_parse pass_through tt buffer (decode_chunks decode d chunks).
Proof.
  revert d buffer. induction chunks as [|value rest IH]; intros d buffer; [reflexivity|].
  cbn [read_loop decode_chunks]. destruct (decode d value) as [d' text].
  cbn [read_loop pass_through]. now rewrite IH.
Qed.

(** When the loop is left because the body ended, no callback that was
    invoked is terminal, and what stays in the buffer holds no delimiter. *)
Lemma read_loop_ended (chunks : list string) (d : decoder) (buffer : string)
    (out : list Callback) (left_over : string) :
  read_loop JSON_parse decode d buffer chunks = (out, Ended left_over) ->
  forallb (fun cb => negb (is_terminal cb)) out = true
  /\ (split LFLF buffer = [buffer] -> split LFLF left_over = [left_over]).
Proof.
  revert d buffer out. induction chunks as [|value rest IH]; intros d buffer out;
    cbn [read_loop].
  - intros [= <- <-]. now split.
  - destruct (decode d value) as [d' text].
    destruct (handle_events JSON_parse _) as [out1 [|]] eqn:E1; [discriminate|].
    destruct (read_loop JSON_parse decode d' _ rest) as [out2 outcome] eqn:E2.
    intros [= <- ->]. apply IH in E2 as [H2 Hbuf]. split.
    + rewrite forallb_app, H2, (handle_events_open _ _ E1). reflexivity.
    + intros _. apply Hbuf, split_pop.
Qed.

Lemma decode_chunks_concat (chunks : list string) (d : decoder) :
  streams decoder decode ->
  concat (decode_chunks decode d chunks) = snd (decode d (concat chunks)).
Proof.
  intros [Hnil Happ]. revert d. induction chunks as [|value rest IH]; intros d.
  - cbn. now rewrite Hnil.
  - cbn [decode_chunks concat foldr]. fold (concat rest).
    rewrite Happ. destruct (decode d value) as [d' text].
    cbn [concat foldr fst snd]. fold (concat (decode_chunks decode d' rest)).
    now rewrite IH.
Qed.

(** With such a decoder, reading the chunks is reading the whole body as one
    chunk. *)
Lemma read_loop_joined (chunks : list string) (d : decoder) :
  streams decoder decode ->
  read_loop JSON_parse decode d "" chunks =
  read_loop JSON_parse decode d "" [concat chunks].
Proof.
  intros Hd. rewrite !read_loop_decoded.
  rewrite (read_loop_whole _ "" eq_refl), sapp_nil_l.
  rewrite (decode_chunks_concat _ _ Hd).
  cbn [decode_chunks]. now destruct (decode d (concat chunks)).
Qed.

End Decoder.

End Stream.

Lemma pass_through_streams : streams unit pass_through.
Proof. split; reflexivity. Qed.

(** C4.  However the bytes of the body are cut into chunks, the read loop
    invokes the callbacks that it invokes when the whole body arrives as one
    chunk, in the same order, and is left in the same way with the same text
    held back; so does [processChatStream].  What is held back when the body
    ends is an incomplete block: it holds no delimiter. *)
Theorem chunking_preserves_events
    (JSON_parse : string -> option json)
    (decoder : Type) (decode : decoder -> string -> decoder * string)
    (new_TextDecoder : decoder) (body : string) (chunks : list string) :
  streams decoder decode ->
  concat chunks = body ->
  read_loop JSON_parse decode new_TextDecoder "" chunks =
    read_loop JSON_parse decode new_TextDecoder "" [body]
  /\ (forall (message statusText : string) (failure : option Thrown),
        processChatStream JSON_parse decode new_TextDecoder message
          (FetchResponse true statusText
             (Some {| Transport.chunks := chunks; Transport.failure := failure |})) =
        processChatStream JSON_parse decode new_TextDecoder message
          (FetchResponse true statusText
             (Some {| Transport.chunks := [body]; Transport.failure := failure |})))
  /\ (forall (out : list Callback) (left_over : string),
        read_loop JSON_parse decode new_TextDecoder "" chunks = (out, Ended left_over) ->
        split LFLF left_over = [left_over]).
Proof.
  intros Hd <-.
  pose proof (read_loop_joined JSON_parse decoder decode chunks new_TextDecoder Hd) as H.
  split; [exact H|]. split.
  - intros message statusText failure. unfold processChatStream.
    cbn [negb Transport.chunks Transport.failure]. now rewrite H.
  - intros out left_over E.
    now apply (read_loop_ended JSON_parse decoder decode chunks new_TextDecoder ""
                 out left_over E).
Qed.

Lemma chunking_preserves_events_witness :
  streams unit pass_through
  /\ concat Scenario.answer_chunks = Scenario.answer_text
  /\ read_loop Sample.parse pass_through tt "" Scenario.answer_chunks =
     read_loop Sample.parse pass_through tt "" [Scenario.answer_text].
Proof.
  split; [split; reflexivity|].
  split; [vm_compute; reflexivity|].
  apply (chunking_preserves_events Sample.parse unit pass_through tt
           Scenario.answer_text Scenario.answer_chunks).
  - split; reflexivity.
  - vm_compute; reflexivity.
Defined.

(** The callbacks of the chunked answer of the end-to-end scenario. *)
Example answer_chunks_callbacks :
  read_loop Sample.parse pass_through tt "" Scenario.answer_chunks =
  ([CallCitation (JObj [("citation_id", JStr "c1"); ("fileId", JStr "f1");
                        ("page", JNum 3)]);
    CallToken (Some (JStr "Connect ")); CallToken (Some (JStr "the "));
    CallToken (Some (JStr "cable."));
    CallDone (JObj [("used_retrieval", JBool true)])],
   Returned).
Proof. vm_compute. reflexivity. Qed.

End TransportFacts.

(** ** The session controller *)

Module ControllerFacts.
Import Js JsFacts Transport Controller.

Lemma deliver_all_app (st : State) (a b : list StreamEvent) :
  deliver_all st (a ++ b) = deliver_all (deliver_all st a) b.
Proof. apply foldl_app. Qed.

(** Deliver the first event of a run and keep the rest as a run. *)
Ltac first_event :=
  cbn [deliver_all foldl];
  match goal with
  | |- context [foldl deliver ?st ?evs] => fold (deliver_all st evs)
  end.

(** Split the hypothesis that all events of [ev :: evs] are partial. *)
Ltac partial_head H Hev Hevs :=
  cbn [forallb] in H; apply andb_prop in H as [Hev Hevs].

(** Token and citation events touch nothing but the pending turn. *)
Lemma partial_frame (st : State) (ev : StreamEvent) :
  is_partial ev = true ->
  deliver st ev = with_pending (pending (deliver st ev)) st.
Proof.
  destruct ev as [text|c| |]; try discriminate; intros _; cbn.
  - reflexivity.
  - unfold onCitation. destruct (citation_id c) as [cid|]; [|now destruct st].
    destruct (_ || _); [now destruct st | reflexivity].
Qed.

Lemma partials_frame (evs : list StreamEvent) (st : State) :
  forallb is_partial evs = true ->
  deliver_all st evs = with_pending (pending (deliver_all st evs)) st.
Proof.
  revert st. induction evs as [|ev evs IH]; intros st H.
  - now destruct st.
  - partial_head H Hev Hevs. first_event.
    rewrite (IH _ Hevs) at 1. now rewrite (partial_frame st ev Hev).
Qed.

Lemma partials_response (evs : list StreamEvent) (st : State) :
  forallb is_partial evs = true ->
  currentResponseRef (pending (deliver_all st evs)) =
  currentResponseRef (pending st) +:+ concat (token_texts evs).
Proof.
  revert st. induction evs as [|ev evs IH]; intros st H.
  - cbn. now rewrite sapp_nil_r.
  - partial_head H Hev Hevs. first_event.
    rewrite (IH _ Hevs).
    destruct ev as [text|c| |]; try discriminate; cbn.
    + fold (token_texts evs). fold (concat (token_texts evs)).
      now rewrite sapp_assoc.
    + fold (token_texts evs). f_equal.
      unfold onCitation. destruct (citation_id c) as [cid|]; [|reflexivity].
      now destruct (_ || _).
Qed.

Lemma emptyResponse_nonempty : emptyResponse <> "".
Proof. discriminate. Qed.

(** C1.  A turn opened by a send and closed by a done event appends one
    assistant message whose content is the concatenation of the token texts
    in arrival order, or the placeholder [emptyResponse], which is not the
    empty string, when that concatenation is empty. *)
Theorem done_commits_token_concatenation
    (st : State) (evs : list StreamEvent) (used : bool) :
  canSend st = true ->
  forallb is_partial evs = true ->
  let text := concat (token_texts evs) in
  exists m : Message,
    messages (deliver_all (handleSend st) (evs ++ [Done used])) =
      messages (handleSend st) ++ [m]
    /\ msg_type m = assistant
    /\ content m = (if String.eqb text "" then emptyResponse else text)
    /\ content m <> "".
Proof.
  intros Hsend Hevs text.
  rewrite deliver_all_app. cbn [deliver_all foldl deliver].
  fold (deliver_all (handleSend st) evs).
  set (st1 := deliver_all (handleSend st) evs).
  assert (Hresp : currentResponseRef (pending st1) = text).
  { unfold st1. rewrite (partials_response _ _ Hevs).
    unfold handleSend. rewrite Hsend. reflexivity. }
  assert (Hmsgs : messages st1 = messages (handleSend st)).
  { unfold st1. now rewrite (partials_frame _ _ Hevs). }
  eexists. cbn [onDone messages]. rewrite Hmsgs, Hresp.
  split; [reflexivity|]. split; [reflexivity|]. split; [reflexivity|].
  cbn [content]. destruct (String.eqb text "") eqn:E.
  - apply emptyResponse_nonempty.
  - now apply String.eqb_neq in E.
Qed.

(** *** Citations *)

Lemma first_seen_elem (l : list string) (x : string) : x ∈ first_seen l <-> x ∈ l.
Proof.
  induction l as [|y l IH]; [reflexivity|].
  cbn [first_seen]. rewrite !elem_of_cons, list_elem_of_filter, IH.
  destruct (decide (x = y)); tauto.
Qed.

Lemma first_seen_NoDup (l : list string) : NoDup (first_seen l).
Proof.
  induction l as [|y l IH]; [constructor|].
  cbn [first_seen]. constructor.
  - rewrite list_elem_of_filter. intros [Hne _]. now apply Hne.
  - now apply NoDup_filter.
Qed.

Lemma first_seen_length (l : list string) :
  length (first_seen l) = size (list_to_set l : gset string).
Proof.
  rewrite <- (size_list_to_set (C:=gset string) _ (first_seen_NoDup l)).
  f_equal. apply set_eq. intros x.
  now rewrite !elem_of_list_to_set, first_seen_elem.
Qed.

Lemma cited_ids_cons (ev : StreamEvent) (evs : list StreamEvent) :
  cited_ids (ev :: evs) =
  match cited_id ev with
  | Some cid => cid :: cited_ids evs
  | None => cited_ids evs
  end.
Proof. reflexivity. Qed.

(** The references of the pending turn after token and citation events, from
    a state whose seen-set holds exactly the ids [L] of its references. *)
Lemma partials_citations (evs : list StreamEvent) (st : State) (L : list string) :
  forallb is_partial evs = true ->
  map ref_citationId (currentReferencesRef (pending st)) = map Some L ->
  citationIdsRef (pending st) = list_to_set L ->
  map ref_citationId (currentReferencesRef (pending (deliver_all st evs))) =
  map Some (L ++ filter (fun y => y ∉ L) (first_seen (cited_ids evs))).
Proof.
  revert st L. induction evs as [|ev evs IH]; intros st L H HR HS.
  - cbn. now rewrite List.app_nil_r.
  - partial_head H Hev Hevs. first_event.
    destruct ev as [text|c| |]; try discriminate.
    + rewrite (IH _ L Hevs); [reflexivity | exact HR | exact HS].
    + rewrite cited_ids_cons. cbn [deliver cited_id]. unfold onCitation.
      destruct (citation_id c) as [cid|]; [|now apply IH].
      destruct (String.eqb cid "") eqn:Eempty; [now apply IH|].
      cbn [orb]. rewrite HS.
      destruct (bool_decide (cid ∈ (list_to_set L : gset string))) eqn:Eseen.
      * apply bool_decide_eq_true in Eseen. rewrite elem_of_list_to_set in Eseen.
        rewrite (IH _ L Hevs HR HS). do 2 f_equal.
        cbn [first_seen]. rewrite filter_cons_False by (intros Hn; now apply Hn).
        rewrite list_filter_filter. apply list_filter_iff.
        intros y. cbn beta. split; [|tauto].
        intros Hy. split; [exact Hy | now intros ->].
      * apply bool_decide_eq_false in Eseen. rewrite elem_of_list_to_set in Eseen.
        rewrite (IH _ (L ++ [cid]) Hevs).
        -- f_equal. rewrite <- List.app_assoc. f_equal.
           cbn [first_seen app]. rewrite filter_cons_True by exact Eseen.
           f_equal. rewrite list_filter_filter. apply list_filter_iff.
           intros y. cbn beta. rewrite elem_of_app, list_elem_of_singleton. tauto.
        -- cbn. rewrite !map_app, HR. reflexivity.
        -- cbn [with_pending pending citationIdsRef].
           rewrite list_to_set_app_L, list_to_set_singleton_L.
           apply (comm_L (∪)).
Qed.

Lemma partials_ref_ids (evs : list StreamEvent) (st : State) :
  forallb is_partial evs = true ->
  let R := currentReferencesRef (pending st) in
  map ref_id R = seq 1 (length R) ->
  let R' := currentReferencesRef (pending (deliver_all st evs)) in
  map ref_id R' = seq 1 (length R').
Proof.
  revert st. induction evs as [|ev evs IH]; intros st H R HR; [exact HR|].
  partial_head H Hev Hevs. first_event.
  apply (IH _ Hevs).
  destruct ev as [text|c| |]; try discriminate; [exact HR|].
  cbn [deliver]. unfold onCitation.
  destruct (citation_id c) as [cid|]; [|exact HR].
  destruct (_ || _); [exact HR|].
  cbn [with_pending pending currentReferencesRef]. fold R.
  rewrite map_app, length_app. cbn [length map ref_id].
  rewrite !Nat.add_1_r, seq_S, HR. reflexivity.
Qed.

Lemma filter_unseen_nil (l : list string) :
  filter (fun y : string => y ∉ @nil string) l = l.
Proof.
  induction l as [|x l IH]; [reflexivity|].
  rewrite filter_cons_True by apply not_elem_of_nil. now rewrite IH.
Qed.

Lemma committed_references_of (R : list Reference) :
  default [] (match R with [] => None | _ :: _ => Some R end) = R.
Proof. now destruct R. Qed.

(** C2.  A citation whose id is absent, empty or already seen leaves the
    whole state as it is; any other citation appends one reference, numbered
    one more than the references so far, and adds its id to the seen-set.
    Hence the message committed at the end of a turn carries one reference per
    distinct non-empty citation id, in first-seen order, numbered 1..n. *)
Theorem citations_deduplicated_in_first_seen_order
    (st : State) (evs : list StreamEvent) (used : bool) :
  canSend st = true ->
  forallb is_partial evs = true ->
  (forall (st' : State) (c : CitationData),
      citation_id c = None \/ citation_id c = Some "" \/
      (exists cid, citation_id c = Some cid /\ cid ∈ citationIdsRef (pending st')) ->
      onCitation c st' = st')
  /\ (forall (st' : State) (c : CitationData) (cid : string),
      citation_id c = Some cid -> cid <> "" ->
      cid ∉ citationIdsRef (pending st') ->
      exists r : Reference,
        currentReferencesRef (pending (onCitation c st')) =
          currentReferencesRef (pending st') ++ [r]
        /\ ref_id r = length (currentReferencesRef (pending st')) + 1
        /\ ref_citationId r = Some cid
        /\ citationIdsRef (pending (onCitation c st')) =
             {[cid]} ∪ citationIdsRef (pending st'))
  /\ (exists m : Message,
      messages (deliver_all (handleSend st) (evs ++ [Done used])) =
        messages (handleSend st) ++ [m]
      /\ map ref_citationId (committed_references m) =
           map Some (first_seen (cited_ids evs))
      /\ map ref_id (committed_references m) =
           seq 1 (length (committed_references m))
      /\ length (committed_references m) =
           size (list_to_set (cited_ids evs) : gset string)).
Proof.
  intros Hsend Hevs. split; [|split].
  - intros st' c H. unfold onCitation.
    destruct H as [-> | [-> | (cid & -> & Hin)]]; try reflexivity.
    rewrite (bool_decide_eq_true_2 _ Hin). now rewrite orb_true_r.
  - intros st' c cid Hc Hne Hnew. unfold onCitation. rewrite Hc.
    apply String.eqb_neq in Hne. rewrite Hne.
    rewrite (bool_decide_eq_false_2 _ Hnew). cbn [orb].
    eexists. cbn [with_pending pending currentReferencesRef citationIdsRef].
    split; [reflexivity|]. now cbn.
  - rewrite deliver_all_app. cbn [deliver_all foldl deliver].
    fold (deliver_all (handleSend st) evs).
    set (st1 := deliver_all (handleSend st) evs).
    assert (Hmsgs : messages st1 = messages (handleSend st)).
    { unfold st1. now rewrite (partials_frame _ _ Hevs). }
    assert (Hstart : pending (handleSend st) = no_pending).
    { unfold handleSend. now rewrite Hsend. }
    assert (Hids : map ref_citationId (currentReferencesRef (pending st1)) =
                   map Some (first_seen (cited_ids evs))).
    { unfold st1. rewrite (partials_citations evs _ [] Hevs).
      - cbn [app]. f_equal. apply filter_unseen_nil.
      - now rewrite Hstart.
      - now rewrite Hstart. }
    assert (Hnum : map ref_id (currentReferencesRef (pending st1)) =
                   seq 1 (length (currentReferencesRef (pending st1)))).
    { unfold st1. apply (partials_ref_ids evs _ Hevs). now rewrite Hstart. }
    eexists. cbn [onDone messages]. rewrite Hmsgs.
    split; [reflexivity|].
    unfold committed_references. cbn [references].
    rewrite committed_references_of.
    split; [exact Hids|]. split; [exact Hnum|].
    rewrite <- first_seen_length.
    rewrite <- (length_map ref_citationId), Hids. now rewrite length_map.
Qed.

(** C10.  A turn that ends with the error callback appends exactly one
    assistant message, whose content is the failure text and which carries no
    references; the references gathered from the citations of the turn are
    dropped with the pending turn, and the messages committed before are
    unchanged. *)
Theorem error_commits_text_without_references
    (st : State) (evs : list StreamEvent) (errText : string) :
  forallb is_partial evs = true ->
  exists m : Message,
    messages (deliver_all st (evs ++ [Error errText])) = messages st ++ [m]
    /\ msg_type m = assistant
    /\ content m = errorPrefix +:+ errText
    /\ references m = None
    /\ pending (deliver_all st (evs ++ [Error errText])) = no_pending.
Proof.
  intros Hevs. rewrite deliver_all_app. cbn [deliver_all foldl deliver].
  fold (deliver_all st evs).
  eexists. cbn [onError messages pending].
  rewrite (partials_frame _ _ Hevs). cbn [with_pending messages].
  repeat split; reflexivity.
Qed.

Lemma done_commits_token_concatenation_witness :
  canSend Scenario.asking = true
  /\ forallb is_partial Scenario.answer = true
  /\ exists m : Message,
       messages (deliver_all (handleSend Scenario.asking)
                   (Scenario.answer ++ [Done true])) =
         messages (handleSend Scenario.asking) ++ [m]
       /\ msg_type m = assistant
       /\ content m = "Connect the cable."
       /\ content m <> "".
Proof.
  split; [reflexivity|]. split; [reflexivity|].
  exact (done_commits_token_concatenation Scenario.asking Scenario.answer true
           eq_refl eq_refl).
Defined.

Lemma citations_deduplicated_in_first_seen_order_witness :
  canSend Scenario.asking = true
  /\ forallb is_partial Scenario.repeated = true
  /\ exists m : Message,
       messages (deliver_all (handleSend Scenario.asking)
                   (Scenario.repeated ++ [Done false])) =
         messages (handleSend Scenario.asking) ++ [m]
       /\ map ref_citationId (committed_references m) =
            [Some "c2"; Some "c1"; Some "c3"]
       /\ map ref_id (committed_references m) =
            seq 1 (length (committed_references m))
       /\ length (committed_references m) =
            size (list_to_set (cited_ids Scenario.repeated) : gset string).
Proof.
  split; [reflexivity|]. split; [reflexivity|].
  exact (proj2 (proj2 (citations_deduplicated_in_first_seen_order
                         Scenario.asking Scenario.repeated false eq_refl eq_refl))).
Defined.

Lemma error_commits_text_without_references_witness :
  forallb is_partial Scenario.repeated = true
  /\ exists m : Message,
       messages (deliver_all (handleSend Scenario.asking)
                   (Scenario.repeated ++ [Error "timeout"])) =
         messages (handleSend Scenario.asking) ++ [m]
       /\ msg_type m = assistant
       /\ content m = errorPrefix +:+ "timeout"
       /\ references m = None
       /\ pending (deliver_all (handleSend Scenario.asking)
                     (Scenario.repeated ++ [Error "timeout"])) = no_pending.
Proof.
  split; [reflexivity|].
  exact (error_commits_text_without_references (handleSend Scenario.asking)
           Scenario.repeated "timeout" eq_refl).
Defined.

(** The end-to-end scenario of the design document, on the events. *)
Example end_to_end_commit :
  messages (deliver_all (handleSend Scenario.asking) (Scenario.answer ++ [Done true])) =
  messages (handleSend Scenario.asking) ++
  [ {| msg_id := "1001"; msg_type := assistant; content := "Connect the cable.";
       timestamp := 1000;
       references := Some
         [ {| ref_id := 1; ref_text := "第 3 页相关内容"; ref_page := 3;
              ref_citationId := Some "c1"; ref_rank := None; ref_snippet := None;
              ref_previewUrl := None; ref_fileId := Some "f1" |} ] |} ].
Proof. vm_compute. reflexivity. Qed.

(** *** Cancellation *)

(** No code assigns [abortRef.current], so it stays [null] and the calls of
    [abort] through it do nothing. *)
Lemma abortRef_stays_null (st : State) :
  abortRef st = None ->
  abortRef (handleSend st) = None
  /\ (forall ev, abortRef (deliver st ev) = None)
  /\ (forall net, abortRef (clearChat net st) = None)
  /\ clearChat_start st = st.
Proof.
  intros H. repeat split.
  - unfold handleSend. destruct (negb (canSend st)); [exact H|]. cbn. now rewrite H.
  - intros [text|c|used|message]; cbn; try exact H.
    unfold onCitation. destruct (citation_id c); [|exact H].
    destruct (_ || _); exact H.
  - intros net. unfold clearChat, clearChat_settle.
    destruct (clearSession net) as [e|]; [destruct (unreachable e)|]; cbn; now rewrite H.
  - unfold clearChat_start. destruct st. cbn in *. now subst.
Qed.

(** C3.  The turn of [Scenario.streaming] is streaming when the user presses
    Clear and the clear request is refused: [clearChat] has asked for the
    stream to be aborted, yet the token that arrives afterwards is appended to
    the pending answer and the done event commits an assistant message for
    that turn. *)
Theorem events_after_abort_request_still_commit :
  abortRef Scenario.streaming = None
  /\ isTyping Scenario.after_clear = true
  /\ currentResponseRef (pending Scenario.after_clear) = "a"
  /\ currentResponseRef (pending (deliver Scenario.after_clear (Token "b"))) = "ab"
  /\ exists m : Message,
       messages (deliver_all Scenario.after_clear [Token "b"; Done false]) =
         messages Scenario.after_clear ++ [m]
       /\ msg_type m = assistant
       /\ content m = "ab".
Proof.
  repeat split. eexists. repeat split.
Qed.

(** *** Clearing *)




End ControllerFacts.

(** ** The transport driving the controller *)

Module SessionFacts.
Import Js JsFacts Transport Controller TransportFacts ControllerFacts.

(** Callbacks that are not terminal are token and citation events. *)
Lemma events_of_partial (cbs : list Callback) (evs : list StreamEvent) :
  events_of cbs = Some evs ->
  forallb (fun cb => negb (is_terminal cb)) cbs = true ->
  forallb is_partial evs = true.
Proof.
  revert evs. induction cbs as [|cb cbs IH]; intros evs; cbn [events_of].
  - intros [= <-] _. reflexivity.
  - destruct (event_of cb) as [ev|] eqn:E; [|discriminate].
    destruct (events_of cbs) as [evs'|]; [|discriminate].
    intros [= <-] H. cbn in H. apply andb_prop in H as [Hcb Hcbs].
    cbn. rewrite (IH evs' eq_refl Hcbs), andb_true_r.
    destruct cb as [data|text|data|error]; try discriminate.
    + cbn in E. destruct (citation_of data); [|discriminate]. now injection E as <-.
    + cbn in E. destruct text as [[]|]; try discriminate. now injection E as <-.
Qed.

(** C9.  When the body ends and no done or error event has been read, the
    callbacks that [processChatStream] has invoked are token and citation
    callbacks only, whatever is left in the buffer; the component that sent
    the question has then committed no message beyond the question and is
    still typing. *)
Theorem stream_end_without_terminal_commits_nothing
    (JSON_parse : string -> option json)
    (decoder : Type) (decode : decoder -> string -> decoder * string)
    (new_TextDecoder : decoder) (message statusText : string)
    (chunks : list string) (out : list Callback) (left_over : string) :
  read_loop JSON_parse decode new_TextDecoder "" chunks = (out, Ended left_over) ->
  processChatStream JSON_parse decode new_TextDecoder message
    (FetchResponse true statusText
       (Some {| Transport.chunks := chunks; Transport.failure := None |})) = out
  /\ forallb (fun cb => negb (is_terminal cb)) out = true
  /\ (forall (st : State) (evs : list StreamEvent),
        canSend st = true ->
        events_of out = Some evs ->
        messages (deliver_all (handleSend st) evs) = messages (handleSend st)
        /\ isTyping (deliver_all (handleSend st) evs) = true).
Proof.
  intros E.
  pose proof (read_loop_ended JSON_parse decoder decode chunks new_TextDecoder ""
                out left_over E) as [Hout _].
  split; [|split; [exact Hout|]].
  - unfold processChatStream. cbn [negb Transport.chunks Transport.failure].
    now rewrite E.
  - intros st evs Hsend Hevs.
    pose proof (events_of_partial out evs Hevs Hout) as Hpartial.
    rewrite (partials_frame _ _ Hpartial). cbn [with_pending messages isTyping].
    split; [reflexivity|]. unfold handleSend. now rewrite Hsend.
Qed.

Lemma stream_end_without_terminal_commits_nothing_witness :
  read_loop Sample.parse pass_through tt "" Scenario.unterminated_chunks =
    ([CallToken (Some (JStr "Connect "))],
     Ended ("event: done" +:+ LF +:+ "data: " +:+ Scenario.done_payload))
  /\ processChatStream Sample.parse pass_through tt "How to install?"
       (FetchResponse true "OK"
          (Some {| Transport.chunks := Scenario.unterminated_chunks;
                   Transport.failure := None |})) =
     [CallToken (Some (JStr "Connect "))]
  /\ messages (deliver_all (handleSend Scenario.asking) [Token "Connect "]) =
     messages (handleSend Scenario.asking)
  /\ isTyping (deliver_all (handleSend Scenario.asking) [Token "Connect "]) = true.
Proof.
  assert (E : read_loop Sample.parse pass_through tt "" Scenario.unterminated_chunks =
              ([CallToken (Some (JStr "Connect "))],
               Ended ("event: done" +:+ LF +:+ "data: " +:+ Scenario.done_payload)))
    by (vm_compute; reflexivity).
  split; [exact E|].
  destruct (stream_end_without_terminal_commits_nothing Sample.parse unit
              pass_through tt "How to install?" "OK" _ _ _ E) as (Hout & _ & Hst).
  split; [exact Hout|].
  exact (Hst Scenario.asking [Token "Connect "] eq_refl eq_refl).
Defined.

(** The block that [Scenario.unterminated_chunks] leaves in the buffer is a
    complete done event: followed by the blank line it is dispatched. *)
Example unterminated_block_is_complete :
  read_loop Sample.parse pass_through tt "" (Scenario.unterminated_chunks ++ [LFLF]) =
  ([CallToken (Some (JStr "Connect "));
    CallDone (JObj [("used_retrieval", JBool true)])], Returned).
Proof. vm_compute. reflexivity. Qed.

(** The end-to-end scenario of the design document, from the chunks of the
    body to the committed message. *)
Example end_to_end_stream :
  last_content <$>
    after_stream
      (processChatStream Sample.parse pass_through tt "How to install?"
         (FetchResponse true "OK"
            (Some {| Transport.chunks := Scenario.answer_chunks;
                     Transport.failure := None |})))
      (handleSend Scenario.asking) =
  Some (Some "Connect the cable.").
Proof. vm_compute. reflexivity. Qed.

(** *** Failures before the first byte *)

(** C6, as stated, fails when [fetch] rejects with [Failed to fetch]: the
    callbacks are those of the simulated answer, which ends with a done
    event, and the component commits that answer instead of an error
    message. *)
Lemma failed_fetch_is_answered_by_simulation :
  failure_before_first_byte (FetchRejected Scenario.offline) = Some Scenario.offline
  /\ List.last (processChatStream Sample.parse pass_through tt "How to install?"
                  (FetchRejected Scenario.offline)) (CallError JNull) =
     CallDone (JObj [("used_retrieval", JBool false)])
  /\ last_content <$>
       after_stream (processChatStream Sample.parse pass_through tt "How to install?"
                       (FetchRejected Scenario.offline))
         (handleSend Scenario.asking) =
     Some (Some (mockResponse "How to install?" +:+ " "))
  /\ ~ handled_as_error
        (processChatStream Sample.parse pass_through tt "How to install?"
           (FetchRejected Scenario.offline))
        (handleSend Scenario.asking).
Proof.
  split; [reflexivity|]. split; [vm_compute; reflexivity|].
  split; [vm_compute; reflexivity|].
  intros [description H].
  assert (T : toasts <$> after_stream
                (processChatStream Sample.parse pass_through tt "How to install?"
                   (FetchRejected Scenario.offline))
                (handleSend Scenario.asking) = Some [])
    by (vm_compute; reflexivity).
  rewrite H in T. discriminate T.
Qed.

(** C6, as the code has it.  A failure before the first byte makes
    [processChatStream] invoke the error callback once, with the message of
    what was thrown ([Unknown error] when it is not an [Error]), unless it is
    a TypeError whose message contains [Failed to fetch], which is answered by
    the simulated stream.  In the first case the component does what it does
    for an error event with that message: it appends one assistant message
    made of the failure text, without references, drops the pending turn and
    stops typing. *)
Theorem failure_before_first_byte_is_error_unless_simulated
    (JSON_parse : string -> option json)
    (decoder : Type) (decode : decoder -> string -> decoder * string)
    (new_TextDecoder : decoder) (message : string) (net : FetchResult)
    (e : Thrown) (st : State) :
  failure_before_first_byte net = Some e ->
  processChatStream JSON_parse decode new_TextDecoder message net =
    (if failed_to_fetch e then mock_stream message
     else [CallError (JStr (error_text e))])
  /\ (failed_to_fetch e = false ->
      after_stream (processChatStream JSON_parse decode new_TextDecoder message net) st =
        Some (deliver st (Error (error_text e)))
      /\ handled_as_error (processChatStream JSON_parse decode new_TextDecoder message net) st
      /\ (exists m : Message,
            messages (deliver st (Error (error_text e))) = messages st ++ [m]
            /\ msg_type m = assistant
            /\ content m = errorPrefix +:+ error_text e
            /\ references m = None)
      /\ pending (deliver st (Error (error_text e))) = no_pending
      /\ isTyping (deliver st (Error (error_text e))) = false).
Proof.
  intros Hnet.
  assert (Hrun : processChatStream JSON_parse decode new_TextDecoder message net = catch_block message e).
  { destruct net as [e'|[|] statusText [[[|value rest] [e'|]]|]];
      try discriminate Hnet; cbn in Hnet; injection Hnet as <-; reflexivity. }
  split; [exact Hrun|].
  intros Hsim. rewrite Hrun. unfold catch_block. rewrite Hsim.
  split; [reflexivity|]. split; [now exists (error_text e)|].
  split; [|split; reflexivity].
  eexists. cbn [deliver onError messages]. repeat split; reflexivity.
Qed.

Lemma failure_before_first_byte_is_error_unless_simulated_witness :
  failure_before_first_byte (FetchResponse false "Service Unavailable" None) =
    Some (ThrownError false "Chat request failed: Service Unavailable")
  /\ processChatStream Sample.parse pass_through tt "How to install?"
       (FetchResponse false "Service Unavailable" None) =
     [CallError (JStr "Chat request failed: Service Unavailable")].
Proof.
  split; [reflexivity|].
  exact (proj1 (failure_before_first_byte_is_error_unless_simulated
                  Sample.parse unit pass_through tt "How to install?"
                  (FetchResponse false "Service Unavailable" None)
                  (ThrownError false "Chat request failed: Service Unavailable")
                  (handleSend Scenario.asking) eq_refl)).
Defined.

End SessionFacts.

(** ** The resolver of image addresses *)

Module RendererFacts.
Import Js Renderer.

Lemma API_HOST_value : API_HOST = "http://localhost:8000".
Proof. reflexivity. Qed.

Lemma find_page_fileId (n : Z) (references : list Reference) (r : Reference) :
  find_page n references = Some r -> truthy_string (fileId r) = true.
Proof.
  intros H. apply List.find_some in H as [_ H]. now apply andb_prop in H as [_ H].
Qed.

Lemma find_any_fileId (references : list Reference) (r : Reference) :
  find_any references = Some r -> truthy_string (fileId r) = true.
Proof. intros H. now apply List.find_some in H as [_ H]. Qed.








(** A page marker beyond 53 bits is read as the nearest Number, so it finds
    the reference whose page is that Number. *)
Example page_marker_is_rounded :
  parseInt "9007199254740993" = 9007199254740992%Z
  /\ parseInt "9007199254740995" = 9007199254740996%Z
  /\ parseInt "22" = 22%Z
  /\ fixedSrc (Some "images/page9007199254740993.png")
       [Scenario.reference 1 9007199254740992 "f1";
        Scenario.reference 2 9007199254740993 "f9"] None =
     Api.getExtractedImageUrl None "f1" "page9007199254740993.png".
Proof. repeat split. Qed.

(** Without a fallback the same path takes the file id of the first
    reference. *)
Example page99_without_fallback :
  fixedSrc (Some "./images/page99_img1.png") Scenario.two_references None =
  "http://localhost:8000/api/v1/pdf/images?fileId=f1&imagePath=page99_img1.png".
Proof. reflexivity. Qed.

(** An address with the data scheme is neither absolute nor an image path
    for [fixedSrc]: the component renders its placeholder for it. *)
Example data_address_is_unresolved :
  fixedSrc (Some "data:image/png;base64,AAAA") Scenario.two_references (Some "f2") = "".
Proof. reflexivity. Qed.

(** Without references and without a fallback the path is unresolved. *)
Example page99_unresolved :
  fixedSrc (Some "./images/page99_img1.png") [] None = "".
Proof. reflexivity. Qed.

End RendererFacts.

(** ** The sanitizing allowlist *)

Module SanitizerFacts.
Import Js Sanitizer.

Lemma src_protocols (defaultSchema : Schema) :
  protocols (sanitizeSchema defaultSchema) !! "src" =
  Some ["http"; "https"; "data"; "blob"].
Proof.
  unfold sanitizeSchema. cbn [protocols].
  rewrite lookup_insert_ne by discriminate. apply lookup_insert_eq.
Qed.

Lemma href_protocols (defaultSchema : Schema) :
  protocols (sanitizeSchema defaultSchema) !! "href" =
  Some ["http"; "https"; "mailto"; "tel"].
Proof. unfold sanitizeSchema. cbn [protocols]. apply lookup_insert_eq. Qed.

(** C8.  Under [sanitizeSchema], whatever the default schema, an image
    address whose scheme is http, https, data or blob and a link address whose
    scheme is http, https, mailto or tel are kept as they are, and an address
    with any other scheme is dropped; the filter has no error result. *)
Theorem allowlisted_schemes_are_kept
    (defaultSchema : Schema) (address scheme : string) :
  before_colon address = Some scheme ->
  (scheme ∈ ["http"; "https"; "data"; "blob"] ->
     sanitize_address (sanitizeSchema defaultSchema) "src" address = Some address)
  /\ (scheme ∉ ["http"; "https"; "data"; "blob"] ->
     sanitize_address (sanitizeSchema defaultSchema) "src" address = None)
  /\ (scheme ∈ ["http"; "https"; "mailto"; "tel"] ->
     sanitize_address (sanitizeSchema defaultSchema) "href" address = Some address)
  /\ (scheme ∉ ["http"; "https"; "mailto"; "tel"] ->
     sanitize_address (sanitizeSchema defaultSchema) "href" address = None).
Proof.
  intros H. unfold sanitize_address. rewrite H, src_protocols, href_protocols.
  repeat split; intros Hs.
  - now rewrite (bool_decide_eq_true_2 _ Hs).
  - now rewrite (bool_decide_eq_false_2 _ Hs).
  - now rewrite (bool_decide_eq_true_2 _ Hs).
  - now rewrite (bool_decide_eq_false_2 _ Hs).
Qed.

Lemma allowlisted_schemes_are_kept_witness :
  before_colon "data:image/png;base64,AAAA" = Some "data"
  /\ sanitize_address (sanitizeSchema Scenario.plain_schema) "src"
       "data:image/png;base64,AAAA" = Some "data:image/png;base64,AAAA"
  /\ sanitize_address (sanitizeSchema Scenario.plain_schema) "href"
       "data:image/png;base64,AAAA" = None.
Proof.
  split; [reflexivity|].
  destruct (allowlisted_schemes_are_kept Scenario.plain_schema
              "data:image/png;base64,AAAA" "data" eq_refl) as (Hsrc & _ & _ & Hhref).
  split; [apply Hsrc | apply Hhref].
  - apply (bool_decide_unpack _). exact I.
  - apply (bool_decide_eq_false_1 _). reflexivity.
Defined.

(** The sanitizer example of the design document. *)
Example sanitizer_example :
  sanitize_address (sanitizeSchema Scenario.plain_schema) "href" "javascript:alert(1)" = None
  /\ sanitize_address (sanitizeSchema Scenario.plain_schema) "src"
       "https://example.com/a.png" = Some "https://example.com/a.png"
  /\ sanitize_address (sanitizeSchema Scenario.plain_schema) "src"
       "data:image/png;base64,AAAA" = Some "data:image/png;base64,AAAA".
Proof. repeat split; vm_compute; reflexivity. Qed.

End SanitizerFacts.

(** ** Invariants of the component *)

Module SessionInvariants.
Import Js JsFacts Transport Controller ControllerFacts Session.

Lemma well_numbered_nil : well_numbered [].
Proof. repeat split; constructor. Qed.

Lemma coherent_no_pending : coherent no_pending.
Proof.
  repeat split; try constructor.
  - intros H. cbn in H. now apply not_elem_of_empty in H.
  - intros H. cbn in H. now apply not_elem_of_nil in H.
Qed.

Lemma sapp_nonempty (s t : string) : s <> "" -> s +:+ t <> "".
Proof. destruct s; [congruence | discriminate]. Qed.

(** A citation keeps the pending turn coherent. *)
Lemma onCitation_coherent (c : CitationData) (st : State) :
  coherent (pending st) -> coherent (pending (onCitation c st)).
Proof.
  intros H. unfold onCitation.
  destruct (citation_id c) as [cid|]; [|exact H].
  destruct (String.eqb cid "") eqn:Eempty; [exact H|].
  destruct (bool_decide (cid ∈ citationIdsRef (pending st))) eqn:Eseen; [exact H|].
  apply bool_decide_eq_false in Eseen. apply String.eqb_neq in Eempty.
  destruct H as (Htext & Hrefs & Hset & Hnum & Hdup & Hall).
  unfold coherent, well_numbered.
  cbn [orb with_pending pending currentResponse currentReferences
       currentResponseRef currentReferencesRef citationIdsRef].
  split; [exact Htext|]. split; [now rewrite Hrefs|]. split; [|repeat split].
  - intros cid'. rewrite elem_of_union, elem_of_singleton, map_app, elem_of_app, Hset.
    cbn [map ref_citationId]. rewrite list_elem_of_singleton.
    split; (intros [H|H]; [right | left]); congruence.
  - rewrite map_app, length_app. cbn [length map ref_id].
    rewrite !Nat.add_1_r, seq_S, Hnum. reflexivity.
  - rewrite map_app. apply NoDup_app. split; [exact Hdup|]. split.
    + intros x Hx. cbn [map ref_citationId]. rewrite list_elem_of_singleton.
      intros ->. now apply Hset in Hx.
    + apply NoDup_singleton.
  - apply Forall_app. split; [exact Hall|].
    constructor; [|constructor]. now exists cid.
Qed.

Lemma deliver_coherent (ev : StreamEvent) (st : State) :
  coherent (pending st) -> coherent (pending (deliver st ev)).
Proof.
  destruct ev as [text|c|used|message]; cbn [deliver].
  - intros (Htext & Hrefs & Hrest). repeat split; cbn; try apply Hrest.
    + now rewrite Htext.
    + exact Hrefs.
  - apply onCitation_coherent.
  - intros _. apply coherent_no_pending.
  - intros _. apply coherent_no_pending.
Qed.

Lemma sound_without_references (m : Message) :
  content m <> "" -> references m = None -> sound m.
Proof.
  intros Hc Hr. split; [exact Hc|]. unfold committed_references. rewrite Hr.
  apply well_numbered_nil.
Qed.

Lemma welcome_sound (now : Z) : sound (welcome now).
Proof. now apply sound_without_references. Qed.

Lemma mount_kept (file : option string) (now : Z) : kept (mount file now).
Proof.
  split; [apply coherent_no_pending|]. split; [reflexivity|]. split.
  - constructor; [apply welcome_sound | constructor].
  - now exists now, [].
Qed.

(** An action that leaves the pending turn, [abortRef] and the messages as
    they are keeps what is kept. *)
Lemma kept_frame (st st' : State) :
  pending st' = pending st -> abortRef st' = abortRef st ->
  messages st' = messages st -> kept st -> kept st'.
Proof. unfold kept. now intros -> -> ->. Qed.

Lemma handleSend_kept (st : State) : kept st -> kept (handleSend st).
Proof.
  intros H. unfold handleSend. destruct (canSend st) eqn:Hsend; cbn [negb]; [|exact H].
  destruct H as (_ & Habort & Hsound & now & rest & Hfirst).
  split; [apply coherent_no_pending|]. split; [cbn; now rewrite Habort|].
  cbn [messages]. split.
  - apply Forall_app. split; [exact Hsound|]. constructor; [|constructor].
    apply sound_without_references; [|reflexivity].
    cbn [content]. intros Hempty. unfold canSend in Hsend.
    now rewrite Hempty in Hsend.
  - eexists now, _. now rewrite Hfirst.
Qed.

Lemma clearChat_kept (net : ClearFetch) (st : State) : kept st -> kept (clearChat net st).
Proof.
  intros H. pose proof H as (Hpending & Habort & _).
  unfold clearChat, clearChat_settle.
  assert (Hreset : forall note, kept (reset_messages note (clearChat_start st))).
  { intros note. split; [exact Hpending|]. split; [cbn; now rewrite Habort|].
    split; [constructor; [apply welcome_sound | constructor]|].
    now exists (clock st), []. }
  destruct (clearSession net) as [e|]; [destruct (unreachable e)|]; try apply Hreset.
  apply (kept_frame st); [reflexivity | cbn; now rewrite Habort | reflexivity | exact H].
Qed.

Lemma deliver_kept (ev : StreamEvent) (st : State) : kept st -> kept (deliver st ev).
Proof.
  intros H. pose proof H as (Hpending & Habort & Hsound & now & rest & Hfirst).
  split; [now apply deliver_coherent|].
  destruct ev as [text|c|used|message]; cbn [deliver].
  - split; [exact Habort|]. split; [exact Hsound | now exists now, rest].
  - assert (Hsame : onCitation c st = with_pending (pending (onCitation c st)) st)
      by now apply (partial_frame st (Citation c)).
    rewrite Hsame. split; [exact Habort|]. split; [exact Hsound | now exists now, rest].
  - split; [exact Habort|]. cbn [onDone messages]. split.
    + apply Forall_app. split; [exact Hsound|]. constructor; [|constructor].
      split.
      * cbn [content]. destruct (String.eqb _ "") eqn:E; [discriminate|].
        now apply String.eqb_neq in E.
      * unfold committed_references. cbn [references].
        rewrite committed_references_of. apply Hpending.
    + eexists now, _. now rewrite Hfirst.
  - split; [exact Habort|]. cbn [onError messages]. split.
    + apply Forall_app. split; [exact Hsound|]. constructor; [|constructor].
      apply sound_without_references; [|reflexivity].
      cbn [content]. now apply sapp_nonempty.
    + eexists now, _. now rewrite Hfirst.
Qed.

Lemma act_kept (a : Action) (st : State) : kept st -> kept (act st a).
Proof.
  intros H. destruct a as [text| |net|mode|file|dt|ev]; cbn [act].
  - now apply (kept_frame st).
  - now apply handleSend_kept.
  - now apply clearChat_kept.
  - now apply (kept_frame st).
  - unfold setFileId. destruct (bool_decide _); [exact H | now apply (kept_frame st)].
  - now apply (kept_frame st).
  - now apply deliver_kept.
Qed.

Lemma run_kept (actions : list Action) (st : State) : kept st -> kept (run st actions).
Proof.
  revert st. induction actions as [|a actions IH]; intros st H; [exact H|].
  cbn [run foldl]. apply IH. now apply act_kept.
Qed.

(** X1.  Whatever the user, the parent and the stream do to a mounted
    component, and in whatever order, the pending turn stays coherent: the
    rendered text and references equal the refs that the callbacks read, the
    seen-set holds exactly the citation ids of the pending references, and
    these are numbered 1..n with distinct ids that are not empty. *)
Theorem pending_turn_stays_coherent
    (file : option string) (now : Z) (actions : list Action) :
  coherent (pending (run (mount file now) actions)).
Proof. apply (run_kept actions (mount file now) (mount_kept file now)). Qed.

(** X2.  In every state that a mounted component reaches, the first message
    is the welcome message, no message has empty content, and the references
    of every message are numbered 1..n with distinct citation ids that are
    not empty. *)
Theorem committed_messages_stay_sound
    (file : option string) (now : Z) (actions : list Action) :
  Forall sound (messages (run (mount file now) actions))
  /\ exists (t : Z) (rest : list Message),
       messages (run (mount file now) actions) = welcome t :: rest.
Proof.
  pose proof (run_kept actions (mount file now) (mount_kept file now))
    as (_ & _ & Hsound & Hfirst).
  now split.
Qed.

(** X3.  No action ever stores an abort controller in [abortRef]: in every
    state that a mounted component reaches it is [null], so the abort
    requests of [handleSend] and [clearChat] change nothing. *)
Theorem abort_controller_is_never_stored
    (file : option string) (now : Z) (actions : list Action) :
  abortRef (run (mount file now) actions) = None
  /\ abort_current (abortRef (run (mount file now) actions)) = None
  /\ clearChat_start (run (mount file now) actions) = run (mount file now) actions.
Proof.
  pose proof (run_kept actions (mount file now) (mount_kept file now))
    as (_ & Habort & _).
  split; [exact Habort|]. split; [now rewrite Habort|].
  unfold clearChat_start. destruct (run (mount file now) actions).
  cbn in *. now subst.
Qed.

(** *** Sending while a turn runs *)

(** X4.  [handleSend] does nothing at all unless [canSend] holds: while an
    answer is streaming, for a blank input, and in single-document mode
    without a document, the state stays as it is, so a send never interrupts
    a running turn.  When [canSend] holds it appends the question as a user
    message, empties the input, and opens an empty pending turn. *)
Theorem handleSend_only_when_allowed (st : State) :
  (canSend st = true <->
     blank (input st) = false /\ isTyping st = false
     /\ (chatMode st = single -> present (fileId st) = true))
  /\ (isTyping st = true -> handleSend st = st)
  /\ (canSend st = false -> forall n : nat, run st (replicate n Send) = st)
  /\ (canSend st = true ->
      exists m : Message,
        messages (handleSend st) = messages st ++ [m]
        /\ msg_type m = user /\ content m = input st /\ references m = None
        /\ input (handleSend st) = "" /\ isTyping (handleSend st) = true
        /\ pending (handleSend st) = no_pending
        /\ canSend (handleSend st) = false).
Proof.
  split; [|split; [|split]].
  - unfold canSend. destruct (blank (input st)), (isTyping st), (chatMode st);
      cbn [orb]; split; intros H;
      try discriminate H;
      try (destruct H as (H1 & H2 & H3);
           first [discriminate H1 | discriminate H2 | now apply H3 | reflexivity]).
    + repeat split. intros _. exact H.
    + repeat split. intros E. discriminate E.
  - intros H. unfold handleSend, canSend. rewrite H, orb_true_r. reflexivity.
  - intros H n. induction n as [|n IH]; [reflexivity|].
    cbn [replicate run foldl act]. unfold handleSend. rewrite H. exact IH.
  - intros H. unfold handleSend. rewrite H. cbn [negb].
    eexists. repeat split.
Qed.

(** *** How an answer is cut and interleaved *)

Lemma onToken_empty (st : State) : onToken "" st = st.
Proof.
  unfold onToken. rewrite !sapp_nil_r. destruct st as [? ? ? ? p ? ? ? ? ?].
  now destruct p.
Qed.

Lemma onToken_onToken (t1 t2 : string) (st : State) :
  onToken t2 (onToken t1 st) = onToken (t1 +:+ t2) st.
Proof. unfold onToken. cbn. now rewrite !sapp_assoc. Qed.

Lemma onToken_onCitation (t : string) (c : CitationData) (st : State) :
  onToken t (onCitation c st) = onCitation c (onToken t st).
Proof.
  unfold onCitation. cbn [onToken with_pending pending citationIdsRef].
  destruct (citation_id c) as [cid|]; [|reflexivity].
  destruct (_ || _); reflexivity.
Qed.

(** A run of token and citation events is one token with the whole text,
    then the citations. *)
Lemma partials_normal_form (evs : list StreamEvent) (st : State) :
  forallb is_partial evs = true ->
  deliver_all st evs =
  foldl (fun s c => onCitation c s) (onToken (concat (token_texts evs)) st)
        (citations evs).
Proof.
  revert st. induction evs as [|ev evs IH]; intros st H.
  - cbn. now rewrite onToken_empty.
  - partial_head H Hev Hevs. first_event. rewrite (IH _ Hevs).
    destruct ev as [text|c| |]; try discriminate; cbn [deliver].
    + cbn [token_texts citations omap concat foldr].
      fold (token_texts evs) (citations evs). fold (concat (token_texts evs)).
      now rewrite onToken_onToken.
    + cbn [token_texts citations omap foldl].
      fold (token_texts evs) (citations evs).
      now rewrite onToken_onCitation.
Qed.

(** X5.  Of the token and citation events of a turn only the whole text and
    the sequence of citations matter: two runs that carry the same text,
    however it is cut into tokens, and the same citations in the same order,
    however they are interleaved with the tokens, leave the component in the
    same state, and so commit the same message. *)
Theorem cutting_and_interleaving_do_not_matter
    (st : State) (evs evs' : list StreamEvent) :
  forallb is_partial evs = true ->
  forallb is_partial evs' = true ->
  concat (token_texts evs) = concat (token_texts evs') ->
  citations evs = citations evs' ->
  deliver_all st evs = deliver_all st evs'
  /\ forall used : bool,
       deliver_all st (evs ++ [Done used]) = deliver_all st (evs' ++ [Done used]).
Proof.
  intros H H' Htext Hcit.
  assert (Hsame : deliver_all st evs = deliver_all st evs').
  { rewrite (partials_normal_form _ _ H), (partials_normal_form _ _ H').
    now rewrite Htext, Hcit. }
  split; [exact Hsame|]. intros used. now rewrite !deliver_all_app, Hsame.
Qed.

Lemma cutting_and_interleaving_do_not_matter_witness :
  deliver_all (handleSend Scenario.asking) Scenario.answer =
  deliver_all (handleSend Scenario.asking)
    [Token "Connect the "; Token "cable."; Citation (Scenario.citation "c1" 3 "f1")].
Proof.
  exact (proj1 (cutting_and_interleaving_do_not_matter
                  (handleSend Scenario.asking) Scenario.answer
                  [Token "Connect the "; Token "cable.";
                   Citation (Scenario.citation "c1" 3 "f1")]
                  eq_refl eq_refl eq_refl eq_refl)).
Defined.

End SessionInvariants.

(** ** The framing of the body *)

Module FramingFacts.
Import Js JsFacts Transport TransportFacts Controller ControllerFacts Framing.

Lemma lacks_app (c : Ascii.ascii) (a b : string) :
  lacks c (a +:+ b) = lacks c a && lacks c b.
Proof.
  induction a as [|x a IH]; [reflexivity|].
  rewrite sapp_cons. cbn [lacks]. now rewrite IH, andb_assoc.
Qed.

Lemma prefix_other_head (c0 c : Ascii.ascii) (sep' r : string) :
  Ascii.eqb c c0 = false -> String.prefix (String c0 sep') (String c r) = false.
Proof.
  intros H. cbn. destruct (Ascii.ascii_dec c0 c) as [->|]; [|reflexivity].
  now rewrite Ascii.eqb_refl in H.
Qed.

(** A text that lacks the first code unit of the separator stays in front of
    the first piece. *)
Lemma split_lacking (c0 : Ascii.ascii) (sep' a t : string) :
  lacks c0 a = true ->
  split (String c0 sep') (a +:+ t) = prepend a (split (String c0 sep') t).
Proof.
  intros H. induction a as [|c a IH].
  - rewrite sapp_nil_l.
    destruct (split (String c0 sep') t) as [|h tl] eqn:E; [|reflexivity].
    now apply split_nonempty in E.
  - cbn [lacks] in H. apply andb_prop in H as [Hc Ha]. apply negb_true_iff in Hc.
    rewrite sapp_cons, split_cons, (prefix_other_head _ _ _ _ Hc), (IH Ha).
    destruct (split (String c0 sep') t) as [|h tl] eqn:E; [|reflexivity].
    now apply split_nonempty in E.
Qed.

Lemma split_lacking_whole (c0 : Ascii.ascii) (sep' a : string) :
  lacks c0 a = true -> split (String c0 sep') a = [a].
Proof.
  intros H. rewrite <- (sapp_nil_r a) at 1. rewrite (split_lacking _ _ _ _ H).
  cbn. now rewrite sapp_nil_r.
Qed.

Lemma prefix_app_self (p t : string) : String.prefix p (p +:+ t) = true.
Proof.
  induction p as [|c p IH]; [now destruct t|].
  rewrite sapp_cons. cbn. now destruct (Ascii.ascii_dec c c).
Qed.

Lemma substring_from_app_self (p t : string) :
  substring_from (String.length p) (p +:+ t) = t.
Proof. induction p as [|c p IH]; [reflexivity | exact IH]. Qed.

Lemma split_at_separator (sep t : string) :
  sep <> "" -> split sep (sep +:+ t) = "" :: split sep t.
Proof.
  intros Hsep. destruct sep as [|c0 sep']; [congruence|].
  rewrite sapp_cons, split_cons.
  change (String c0 (sep' +:+ t)) with (String c0 sep' +:+ t).
  rewrite prefix_app_self. f_equal. f_equal.
  replace (String.length (String c0 sep') - 1) with (String.length sep')
    by (cbn [String.length]; lia).
  apply substring_from_app_self.
Qed.

Lemma cons_first_prepend (c : Ascii.ascii) (pieces : list string) :
  cons_first c pieces = prepend (String c "") pieces.
Proof. now destruct pieces. Qed.

Lemma prepend_prepend (a b : string) (pieces : list string) :
  prepend a (prepend b pieces) = prepend (a +:+ b) pieces.
Proof. destruct pieces; cbn; now rewrite ?sapp_assoc. Qed.

(** The text of a block before its blank line. *)
Lemma block_text (eventType payload : string) :
  Sample.block eventType payload =
  ("event: " +:+ eventType +:+ LF +:+ "data: " +:+ payload) +:+ LFLF.
Proof. unfold Sample.block. now rewrite !sapp_assoc. Qed.

(** A block is the first piece of the body that it heads. *)
Lemma split_block (eventType payload rest : string) :
  one_line eventType = true -> one_line payload = true ->
  split LFLF (Sample.block eventType payload +:+ rest) =
  ("event: " +:+ eventType +:+ LF +:+ "data: " +:+ payload) :: split LFLF rest.
Proof.
  intros Ht Hp. unfold Sample.block. rewrite !sapp_assoc.
  pose (nl := Ascii.ascii_of_nat 10).
  change LFLF with (String nl LF) at 1 2.
  rewrite (split_lacking nl LF "event: " _ eq_refl).
  rewrite (split_lacking nl LF eventType _ Ht).
  change (LF +:+ "data: " +:+ payload +:+ String nl LF +:+ rest)
    with (String nl (String "d" ("ata: " +:+ payload +:+ LFLF +:+ rest))).
  rewrite split_cons.
  change (String.prefix (String nl LF)
            (String nl (String "d" ("ata: " +:+ payload +:+ LFLF +:+ rest))))
    with false.
  cbv iota.
  change (String "d" ("ata: " +:+ payload +:+ LFLF +:+ rest))
    with ("data: " +:+ payload +:+ LFLF +:+ rest).
  rewrite (split_lacking nl LF "data: " _ eq_refl).
  rewrite (split_lacking nl LF payload _ Hp).
  change (String nl LF) with LFLF.
  rewrite (split_at_separator LFLF rest LFLF_nonempty).
  rewrite cons_first_prepend, !prepend_prepend.
  cbn [prepend]. now rewrite !sapp_assoc, sapp_nil_r.
Qed.

(** The lines of a block are its type line and its payload line. *)
Lemma block_lines (eventType payload : string) :
  one_line eventType = true -> one_line payload = true ->
  split LF ("event: " +:+ eventType +:+ LF +:+ "data: " +:+ payload) =
  ["event: " +:+ eventType; "data: " +:+ payload].
Proof.
  intros Ht Hp.
  pose (nl := Ascii.ascii_of_nat 10).
  change LF with (String nl "") at 1.
  rewrite (split_lacking nl "" "event: " _ eq_refl).
  rewrite (split_lacking nl "" eventType _ Ht).
  assert (LF_nonempty : LF <> "") by discriminate.
  change (String nl "") with LF.
  rewrite (split_at_separator LF _ LF_nonempty).
  assert (Hline : lacks nl ("data: " +:+ payload) = true)
    by (rewrite lacks_app; exact Hp).
  change LF with (String nl "").
  rewrite (split_lacking_whole nl "" _ Hline).
  cbn [prepend]. now rewrite sapp_nil_r.
Qed.

Lemma block_scanned (eventType payload : string) :
  scan_lines ["event: " +:+ eventType; "data: " +:+ payload] = (eventType, payload).
Proof.
  unfold scan_lines. cbn [foldl]. unfold scan_line at 2. unfold startsWith.
  rewrite prefix_app_self. cbn [snd].
  unfold scan_line, startsWith.
  change (String.prefix "event: " ("data: " +:+ payload)) with false.
  rewrite prefix_app_self. reflexivity.
Qed.

Section Stream.

Variable JSON_parse : string -> option json.

(** What the loop does with a block. *)
Lemma handle_block (eventType payload : string) :
  one_line eventType = true -> one_line payload = true ->
  eventType <> "" -> payload <> "" ->
  handle_event JSON_parse ("event: " +:+ eventType +:+ LF +:+ "data: " +:+ payload) =
  JSON_parse payload ≫= dispatch eventType.
Proof.
  intros Ht Hp Hte Hpe. unfold handle_event.
  change (blank ("event: " +:+ eventType +:+ LF +:+ "data: " +:+ payload)) with false.
  cbv iota. rewrite (block_lines _ _ Ht Hp), block_scanned.
  apply String.eqb_neq in Hte, Hpe. rewrite Hte, Hpe. cbn [negb andb].
  now destruct (JSON_parse payload).
Qed.

(** X6.  A block of the documented framing at the head of the body, a type
    line, a payload line and a blank line, is dispatched on its type with its
    decoded payload, and the body after it is read as if it came alone: after
    a done or error block nothing more is read; a block whose payload does
    not decode or whose type is unknown is passed over. *)
Theorem framed_block_is_dispatched (eventType payload rest : string) :
  one_line eventType = true -> one_line payload = true ->
  eventType <> "" -> payload <> "" ->
  read_loop JSON_parse pass_through tt "" [Sample.block eventType payload +:+ rest] =
  match JSON_parse payload ≫= dispatch eventType with
  | Some cb =>
      if is_terminal cb then ([cb], Returned)
      else
        let '(out, outcome) := read_loop JSON_parse pass_through tt "" [rest] in
        (cb :: out, outcome)
  | None => read_loop JSON_parse pass_through tt "" [rest]
  end.
Proof.
  intros Ht Hp Hte Hpe. cbn [read_loop pass_through]. rewrite !sapp_nil_l.
  rewrite (split_block _ _ rest Ht Hp).
  rewrite popped_cons, pop_cons by apply split_nonempty.
  cbn [handle_events]. rewrite (handle_block _ _ Ht Hp Hte Hpe).
  destruct (JSON_parse payload ≫= dispatch eventType) as [cb|]; [|reflexivity].
  destruct (is_terminal cb); [reflexivity|].
  destruct (handle_events JSON_parse (popped (split LFLF rest))) as [out [|]];
    reflexivity.
Qed.

End Stream.

Lemma framed_block_is_dispatched_witness :
  read_loop Sample.parse pass_through tt ""
    [Sample.block "done" Scenario.done_payload +:+ "anything after"] =
  ([CallDone (JObj [("used_retrieval", JBool true)])], Returned).
Proof.
  exact (framed_block_is_dispatched Sample.parse "done" Scenario.done_payload
           "anything after" eq_refl eq_refl ltac:(discriminate) ltac:(discriminate)).
Defined.

End FramingFacts.

(** ** What a run of the transport invokes *)

Module RunFacts.
Import Js JsFacts Transport TransportFacts Controller ControllerFacts.
Import Session SessionFacts SessionInvariants Framing FramingFacts.

Lemma none_terminal_app (a b : list Callback) :
  none_terminal (a ++ b) = none_terminal a && none_terminal b.
Proof. apply forallb_app. Qed.

Lemma none_terminal_all_but_last (a : list Callback) :
  none_terminal a = true -> none_terminal (all_but_last a) = true.
Proof.
  induction a as [|cb [|cb' a] IH]; try reflexivity.
  intros H. change (all_but_last (cb :: cb' :: a)) with (cb :: all_but_last (cb' :: a)).
  unfold none_terminal in *. cbn [forallb] in *.
  apply andb_prop in H as [H1 H2]. rewrite H1. cbn [andb]. now apply IH.
Qed.

Lemma all_but_last_app (a b : list Callback) :
  none_terminal a = true -> none_terminal (all_but_last b) = true ->
  none_terminal (all_but_last (a ++ b)) = true.
Proof.
  intros Ha Hb. destruct b as [|cb b].
  - rewrite List.app_nil_r. now apply none_terminal_all_but_last.
  - unfold all_but_last. rewrite removelast_app by discriminate.
    rewrite none_terminal_app, Ha. exact Hb.
Qed.

Section Stream.

Variable JSON_parse : string -> option json.
Variable decoder : Type.
Variable decode : decoder -> string -> decoder * string.

Lemma handle_events_last (events : list string) (out : list Callback) (returned : bool) :
  handle_events JSON_parse events = (out, returned) ->
  none_terminal (all_but_last out) = true.
Proof.
  destruct returned; [|intros H; apply none_terminal_all_but_last;
                       exact (handle_events_open JSON_parse _ _ H)].
  revert out. induction events as [|event rest IH]; intros out; cbn [handle_events].
  - discriminate.
  - destruct (handle_event JSON_parse event) as [cb|]; [|apply IH].
    destruct (is_terminal cb) eqn:T; [now intros [= <-]|].
    destruct (handle_events JSON_parse rest) as [out' returned] eqn:E.
    intros [= <- ->]. apply (all_but_last_app [cb]); [|now apply IH].
    unfold none_terminal. cbn. now rewrite T.
Qed.

Lemma read_loop_last (chunks : list string) (d : decoder) (buffer : string)
    (out : list Callback) (outcome : Outcome) :
  read_loop JSON_parse decode d buffer chunks = (out, outcome) ->
  none_terminal (all_but_last out) = true.
Proof.
  revert d buffer out. induction chunks as [|value rest IH]; intros d buffer out;
    cbn [read_loop].
  - now intros [= <- <-].
  - destruct (decode d value) as [d' text].
    destruct (handle_events JSON_parse _) as [out1 [|]] eqn:E1.
    + intros [= <- <-]. exact (handle_events_last _ _ _ E1).
    + destruct (read_loop JSON_parse decode d' _ rest) as [out2 outcome2] eqn:E2.
      intros [= <- <-]. apply all_but_last_app.
      * exact (handle_events_open JSON_parse _ _ E1).
      * exact (IH _ _ _ E2).
Qed.

Lemma mock_stream_last (message : string) :
  none_terminal (all_but_last (mock_stream message)) = true.
Proof.
  unfold mock_stream, all_but_last. rewrite removelast_last.
  unfold none_terminal. rewrite forallb_forall. intros cb Hcb.
  apply in_map_iff in Hcb as (word & <- & _). reflexivity.
Qed.

Lemma catch_block_last (message : string) (e : Thrown) :
  none_terminal (all_but_last (catch_block message e)) = true.
Proof.
  unfold catch_block. destruct (failed_to_fetch e); [apply mock_stream_last | reflexivity].
Qed.

Lemma processChatStream_last (d : decoder) (message : string) (net : FetchResult) :
  none_terminal (all_but_last (processChatStream JSON_parse decode d message net)) = true.
Proof.
  unfold processChatStream. destruct net as [e|ok statusText body];
    [apply catch_block_last|].
  destruct ok; cbn [negb]; [|apply catch_block_last].
  destruct body as [b|]; [|apply catch_block_last].
  destruct (read_loop JSON_parse decode d "" (chunks b)) as [out outcome] eqn:E.
  pose proof (read_loop_last _ _ _ _ _ E) as Hlast.
  destruct outcome as [|left_over]; [exact Hlast|].
  destruct (failure b) as [e|]; [|exact Hlast].
  apply all_but_last_app; [|apply catch_block_last].
  now apply (read_loop_ended JSON_parse decoder decode _ _ _ _ _ E).
Qed.

End Stream.

Lemma events_of_all_but_last (cbs : list Callback) (evs : list StreamEvent) :
  events_of cbs = Some evs ->
  events_of (all_but_last cbs) = Some (List.removelast evs).
Proof.
  revert evs. induction cbs as [|cb [|cb' cbs] IH]; intros evs.
  - now intros [= <-].
  - cbn. destruct (event_of cb); [|discriminate]. now intros [= <-].
  - change (all_but_last (cb :: cb' :: cbs)) with (cb :: all_but_last (cb' :: cbs)).
    cbn [events_of]. destruct (event_of cb) as [ev|]; [|discriminate].
    destruct (event_of cb') as [ev'|] eqn:E'; [|discriminate].
    destruct (events_of cbs) as [evs'|] eqn:Es; [|discriminate].
    intros [= <-].
    assert (H : events_of (cb' :: cbs) = Some (ev' :: evs'))
      by (cbn [events_of]; now rewrite E', Es).
    rewrite (IH _ H). reflexivity.
Qed.

(** X7.  In every run of [processChatStream], whatever the network does, a
    done or error callback is invoked at most once and nothing is invoked
    after it; the component therefore commits at most one message for the
    run, an assistant message. *)
Theorem one_terminal_callback_at_most
    (JSON_parse : string -> option json)
    (decoder : Type) (decode : decoder -> string -> decoder * string)
    (new_TextDecoder : decoder) (message : string) (net : FetchResult) :
  none_terminal
    (all_but_last (processChatStream JSON_parse decode new_TextDecoder message net)) = true
  /\ forall (st : State) (evs : list StreamEvent),
       events_of (processChatStream JSON_parse decode new_TextDecoder message net) =
         Some evs ->
       messages (deliver_all st evs) = messages st
       \/ exists m : Message,
            messages (deliver_all st evs) = messages st ++ [m]
            /\ msg_type m = assistant.
Proof.
  pose proof (processChatStream_last JSON_parse decoder decode new_TextDecoder
                message net) as Hlast.
  split; [exact Hlast|]. intros st evs Hevs.
  pose proof (events_of_partial _ _ (events_of_all_but_last _ _ Hevs) Hlast) as Hinit.
  destruct evs as [|ev0 evs0]; [now left|].
  destruct (exists_last (l := ev0 :: evs0)) as (init & ev & Heq); [discriminate|].
  rewrite Heq in *. clear Heq ev0 evs0.
  rewrite removelast_last in Hinit.
  rewrite deliver_all_app. cbn [deliver_all foldl].
  fold (deliver_all st init).
  assert (Hsame : messages (deliver_all st init) = messages st)
    by now rewrite (partials_frame _ _ Hinit).
  destruct ev as [text|c|used|errText]; cbn [deliver].
  - left. exact Hsame.
  - left. pose proof (partial_frame (deliver_all st init) (Citation c) eq_refl) as Hc.
    cbn [deliver] in Hc. rewrite Hc. exact Hsame.
  - right. eexists. cbn [onDone messages]. rewrite Hsame. split; reflexivity.
  - right. eexists. cbn [onError messages]. rewrite Hsame. split; reflexivity.
Qed.

(** *** The simulated answer *)

Lemma prefix_decompose (p s : string) :
  String.prefix p s = true -> s = p +:+ substring_from (String.length p) s.
Proof.
  revert s. induction p as [|a p IH]; intros [|b s]; cbn; try discriminate;
    try reflexivity.
  destruct (Ascii.ascii_dec a b) as [->|]; [|discriminate].
  intros H. rewrite sapp_cons. f_equal. now apply IH.
Qed.

(** Every piece of a split followed by the separator, joined, is the text
    followed by the separator. *)
Lemma join_split (sep s : string) :
  sep <> "" ->
  concat (map (fun piece => piece +:+ sep) (split sep s)) = s +:+ sep.
Proof.
  intros Hsep.
  remember (String.length s) as n eqn:Hn.
  revert s Hn. induction n as [n IH] using lt_wf_ind. intros s Hn.
  destruct s as [|c s]; [cbn; now rewrite sapp_nil_r|].
  rewrite split_cons. destruct (String.prefix sep (String c s)) eqn:P.
  - cbn [map concat foldr].
    fold (concat (map (fun piece => piece +:+ sep)
                    (split sep (substring_from (String.length sep - 1) s)))).
    rewrite (IH (String.length (substring_from (String.length sep - 1) s))); cycle 1.
    { rewrite substring_from_length. subst n. cbn. lia. }
    { reflexivity. }
    rewrite sapp_nil_l, <- sapp_assoc. f_equal.
    etransitivity; [|symmetry; apply (prefix_decompose _ _ P)]. f_equal.
    destruct sep as [|c0 sep']; [congruence|].
    replace (String.length (String c0 sep') - 1) with (String.length sep')
      by (cbn [String.length]; lia).
    reflexivity.
  - pose proof (IH (String.length s) ltac:(subst n; cbn; lia) s eq_refl) as Hs.
    destruct (split sep s) as [|h tl] eqn:E; [now apply split_nonempty in E|].
    cbn [cons_first map concat foldr] in *. rewrite !sapp_cons.
    f_equal. exact Hs.
Qed.

Lemma events_of_tokens (words : list string) (f : string -> string) (meta : json) :
  events_of (map (fun word => CallToken (Some (JStr (f word)))) words ++ [CallDone meta]) =
  Some (map (fun word => Token (f word)) words ++ [Done (used_retrieval_of meta)]).
Proof.
  induction words as [|w words IH]; [reflexivity|].
  cbn [map app events_of event_of]. now rewrite IH.
Qed.

Lemma token_texts_tokens (words : list string) (f : string -> string) :
  token_texts (map (fun word => Token (f word)) words) = map f words.
Proof. induction words as [|w words IH]; [reflexivity|]. cbn. now f_equal. Qed.

Lemma citations_tokens (words : list string) (f : string -> string) :
  citations (map (fun word => Token (f word)) words) = [].
Proof. induction words as [|w words IH]; [reflexivity | exact IH]. Qed.

Lemma tokens_partial (words : list string) (f : string -> string) :
  forallb is_partial (map (fun word => Token (f word)) words) = true.
Proof. induction words as [|w words IH]; [reflexivity | exact IH]. Qed.

(** X8.  When [fetch] rejects with a TypeError whose message contains
    [Failed to fetch], then for every question the callbacks of the simulated
    answer make the component commit the whole simulated text, followed by
    one space, as an ordinary assistant message without references; the
    component stops typing and shows no toast. *)
Theorem simulated_answer_is_committed
    (JSON_parse : string -> option json)
    (decoder : Type) (decode : decoder -> string -> decoder * string)
    (new_TextDecoder : decoder) (message : string) (e : Thrown) (st : State) :
  failed_to_fetch e = true ->
  canSend st = true ->
  exists (st' : State) (m : Message),
    after_stream
      (processChatStream JSON_parse decode new_TextDecoder message (FetchRejected e))
      (handleSend st) = Some st'
    /\ messages st' = messages (handleSend st) ++ [m]
    /\ msg_type m = assistant
    /\ content m = mockResponse message +:+ " "
    /\ references m = None
    /\ isTyping st' = false
    /\ pending st' = no_pending
    /\ toasts st' = toasts st.
Proof.
  intros He Hsend.
  unfold processChatStream, catch_block. rewrite He. unfold mock_stream, after_stream.
  rewrite (events_of_tokens _ (fun word => word +:+ " ")). cbn [fmap option_fmap option_map].
  set (tokens := map (fun word => Token (word +:+ " ")) (split " " (mockResponse message))).
  assert (Hrun : deliver_all (handleSend st) tokens =
                 onToken (mockResponse message +:+ " ") (handleSend st)).
  { unfold tokens. rewrite (partials_normal_form _ _ (tokens_partial _ _)).
    rewrite citations_tokens, token_texts_tokens.
    cbn [foldl]. now rewrite (join_split " " _ ltac:(discriminate)). }
  eexists. eexists. split; [reflexivity|].
  rewrite deliver_all_app, Hrun. cbn [deliver_all foldl deliver onDone messages].
  assert (Hstart : handleSend st =
                   with_pending no_pending (handleSend st)).
  { unfold handleSend. now rewrite Hsend. }
  rewrite Hstart. cbn [onToken with_pending pending messages content references
                       msg_type isTyping toasts currentResponseRef
                       currentReferencesRef no_pending].
  rewrite sapp_nil_l.
  assert (Hne : String.eqb (mockResponse message +:+ " ") "" = false)
    by (apply String.eqb_neq; now apply sapp_nonempty).
  rewrite Hne. repeat split.
  cbn. rewrite List.app_nil_r. unfold handleSend. now rewrite Hsend.
Qed.

Lemma simulated_answer_is_committed_witness :
  failed_to_fetch Scenario.offline = true
  /\ canSend Scenario.asking = true
  /\ exists (st' : State) (m : Message),
       after_stream
         (processChatStream Sample.parse pass_through tt "How to install?"
            (FetchRejected Scenario.offline))
         (handleSend Scenario.asking) = Some st'
       /\ messages st' = messages (handleSend Scenario.asking) ++ [m]
       /\ msg_type m = assistant
       /\ content m = mockResponse "How to install?" +:+ " "
       /\ references m = None
       /\ isTyping st' = false
       /\ pending st' = no_pending
       /\ toasts st' = toasts Scenario.asking.
Proof.
  split; [reflexivity|]. split; [reflexivity|].
  exact (simulated_answer_is_committed Sample.parse unit pass_through tt
           "How to install?" Scenario.offline Scenario.asking eq_refl eq_refl).
Defined.

End RunFacts.

(** ** The addresses of the backend *)

Module ApiFacts.
Import Js JsFacts Api Framing FramingFacts.

Lemma percent_round_trip (c : Ascii.ascii) :
  Ascii.ascii_of_N
    (16 * unhex (hex_digit (Ascii.N_of_ascii c / 16))
     + unhex (hex_digit (Ascii.N_of_ascii c mod 16))) = c.
Proof. destruct c as [[] [] [] [] [] [] [] []]; reflexivity. Qed.

Lemma hex_digits_unreserved (c : Ascii.ascii) :
  unreserved (hex_digit (Ascii.N_of_ascii c / 16)) = true
  /\ unreserved (hex_digit (Ascii.N_of_ascii c mod 16)) = true.
Proof. destruct c as [[] [] [] [] [] [] [] []]; split; reflexivity. Qed.

Lemma percent_sign_reserved : unreserved "%" = false.
Proof. reflexivity. Qed.

Lemma decode_encode (s : string) : percent_decode (encodeURIComponent s) = s.
Proof.
  induction s as [|c s IH]; [reflexivity|].
  cbn [encodeURIComponent]. destruct (unreserved c) eqn:U.
  - destruct c as [[] [] [] [] [] [] [] []];
      (cbn [percent_decode]; now rewrite IH) || (vm_compute in U; discriminate U).
  - unfold percent. rewrite !sapp_cons, sapp_nil_l. cbn [percent_decode].
    now rewrite percent_round_trip, IH.
Qed.

Lemma escaped_encode (s : string) : escaped (encodeURIComponent s) = true.
Proof.
  induction s as [|c s IH]; [reflexivity|].
  cbn [encodeURIComponent]. destruct (unreserved c) eqn:U.
  - cbn [escaped]. now rewrite U, IH.
  - unfold percent. rewrite !sapp_cons, sapp_nil_l. cbn [escaped].
    destruct (hex_digits_unreserved c) as [-> ->]. now rewrite IH.
Qed.

Lemma escaped_lacks (c : Ascii.ascii) (s : string) :
  unreserved c = false -> c <> "%"%char -> escaped s = true -> lacks c s = true.
Proof.
  intros U Hc. induction s as [|x s IH]; [reflexivity|].
  cbn [escaped lacks]. intros H. apply andb_prop in H as [Hx Hs].
  rewrite (IH Hs), andb_true_r. apply negb_true_iff.
  destruct (Ascii.eqb x c) eqn:E; [|reflexivity].
  apply Ascii.eqb_eq in E. subst x. rewrite U in Hx. cbn in Hx.
  apply Ascii.eqb_eq in Hx. congruence.
Qed.

Lemma encode_length (s : string) :
  String.length s <= String.length (encodeURIComponent s).
Proof.
  induction s as [|c s IH]; [reflexivity|].
  cbn [encodeURIComponent]. destruct (unreserved c); [cbn; lia|].
  unfold percent. rewrite !sapp_cons, sapp_nil_l. cbn [String.length]. lia.
Qed.

Lemma encode_unreserved (s : string) :
  encodeURIComponent s = s <-> escaped s = true /\ lacks "%" s = true.
Proof.
  induction s as [|c s IH]; [now split|].
  cbn [encodeURIComponent escaped lacks]. destruct (unreserved c) eqn:U.
  - assert (Hc : Ascii.eqb c "%" = false).
    { destruct (Ascii.eqb c "%") eqn:E; [|reflexivity].
      apply Ascii.eqb_eq in E. subst c. vm_compute in U. discriminate U. }
    rewrite Hc. cbn [orb andb negb]. rewrite <- IH. split; [now intros [= ->] | now intros ->].
  - unfold percent. rewrite !sapp_cons, sapp_nil_l. split.
    + intros [= _ H]. apply (f_equal String.length) in H.
      pose proof (encode_length s). cbn [String.length] in H. lia.
    + intros [H1 H2]. apply andb_prop in H1 as [H1 _], H2 as [H2 _].
      cbn [orb] in H1. rewrite H1 in H2. discriminate H2.
Qed.

(** X9.  [encodeURIComponent] loses nothing: reading the escapes of its
    result gives the text back, so different texts have different encodings.
    Its result holds only unreserved code units and percent signs, hence none
    of the separators of an address such as [&], [=], [?], [#] and [/]; it
    is the text itself exactly when the text holds only unreserved code
    units. *)
Theorem encodeURIComponent_is_faithful (s : string) :
  percent_decode (encodeURIComponent s) = s
  /\ (forall t : string, encodeURIComponent s = encodeURIComponent t -> s = t)
  /\ escaped (encodeURIComponent s) = true
  /\ (forall c : Ascii.ascii,
        unreserved c = false -> c <> "%"%char ->
        lacks c (encodeURIComponent s) = true)
  /\ (encodeURIComponent s = s <-> escaped s = true /\ lacks "%" s = true).
Proof.
  split; [apply decode_encode|]. split; [|split; [apply escaped_encode|split]].
  - intros t H. rewrite <- (decode_encode s), <- (decode_encode t). now f_equal.
  - intros c U Hc. apply (escaped_lacks c _ U Hc), escaped_encode.
  - apply encode_unreserved.
Qed.

Lemma sapp_inv_head (p a b : string) : p +:+ a = p +:+ b -> a = b.
Proof.
  induction p as [|c p IH]; [now rewrite !sapp_nil_l|].
  rewrite !sapp_cons. intros [= H]. now apply IH.
Qed.

(** Two texts cut at the first occurrence of a code unit are the same when
    the whole texts are. *)
Lemma cut_unique (c : Ascii.ascii) (a a' x x' : string) :
  lacks c a = true -> lacks c a' = true ->
  a +:+ String c x = a' +:+ String c x' -> a = a' /\ x = x'.
Proof.
  revert a'. induction a as [|y a IH]; intros [|y' a'] Ha Ha'.
  - rewrite !sapp_nil_l. now intros [= ->].
  - rewrite sapp_nil_l, sapp_cons. intros [= <- _].
    cbn [lacks] in Ha'. now rewrite Ascii.eqb_refl in Ha'.
  - rewrite sapp_nil_l, sapp_cons. intros [= -> _].
    cbn [lacks] in Ha. now rewrite Ascii.eqb_refl in Ha.
  - rewrite !sapp_cons. intros [= -> H].
    cbn [lacks] in Ha, Ha'. apply andb_prop in Ha as [_ Ha], Ha' as [_ Ha'].
    destruct (IH a' Ha Ha' H) as [-> ->]. now split.
Qed.

(** X10.  The address that [getExtractedImageUrl] builds tells the file and
    the image apart: whatever the base address, two calls give the same
    address only for the same file id and the same image path, even when
    these hold separators of an address. *)
Theorem getExtractedImageUrl_is_injective
    (VITE_API_BASE_URL : option string) (fileId imagePath fileId' imagePath' : string) :
  getExtractedImageUrl VITE_API_BASE_URL fileId imagePath =
  getExtractedImageUrl VITE_API_BASE_URL fileId' imagePath' ->
  fileId = fileId' /\ imagePath = imagePath'.
Proof.
  unfold getExtractedImageUrl. intros H.
  apply sapp_inv_head, sapp_inv_head in H.
  change ("&imagePath=" +:+ encodeURIComponent imagePath)
    with (String "&" ("imagePath=" +:+ encodeURIComponent imagePath)) in H.
  change ("&imagePath=" +:+ encodeURIComponent imagePath')
    with (String "&" ("imagePath=" +:+ encodeURIComponent imagePath')) in H.
  assert (Hamp : forall s, lacks "&" (encodeURIComponent s) = true).
  { intros s. apply (escaped_lacks "&"); [reflexivity | discriminate | apply escaped_encode]. }
  apply cut_unique in H as [Hf Hp]; [|apply Hamp..].
  apply sapp_inv_head in Hp. split.
  - rewrite <- (decode_encode fileId), <- (decode_encode fileId'). now f_equal.
  - rewrite <- (decode_encode imagePath), <- (decode_encode imagePath'). now f_equal.
Qed.

Lemma getExtractedImageUrl_is_injective_witness :
  getExtractedImageUrl None "f1&x=1" "a/b c.png" =
  "http://localhost:8000/api/v1/pdf/images?fileId=f1%26x%3D1&imagePath=a%2Fb%20c.png"
  /\ ("f1&x=1" = "f1&x=1" /\ "a/b c.png" = "a/b c.png").
Proof.
  split; [reflexivity|].
  exact (getExtractedImageUrl_is_injective None "f1&x=1" "a/b c.png"
           "f1&x=1" "a/b c.png" eq_refl).
Defined.

(** Two ways of cutting one text in two: one first part continues the
    other. *)
Lemma sapp_split (a a' b b' : string) :
  a +:+ b = a' +:+ b' ->
  exists d : string, (a' = a +:+ d /\ b = d +:+ b') \/ (a = a' +:+ d /\ b' = d +:+ b).
Proof.
  revert a'. induction a as [|c a IH]; intros a' H.
  - exists a'. left. now rewrite !sapp_nil_l in *.
  - destruct a' as [|c' a'].
    + exists (String c a). right. now rewrite !sapp_nil_l in *.
    + rewrite !sapp_cons in H. injection H as -> H.
      destruct (IH a' H) as (d & [[-> ->] | [-> ->]]); exists d; [left | right];
        now rewrite sapp_cons.
Qed.

Lemma page_tail_unique (x x' : string) (type type' : PageType) :
  x +:+ "&type=" +:+ page_type type = x' +:+ "&type=" +:+ page_type type' ->
  x = x' /\ type = type'.
Proof.
  intros H. pose proof (f_equal String.length H) as Hlen.
  rewrite !slength_app in Hlen.
  destruct (sapp_split _ _ _ _ H) as (d & [[-> Hd] | [-> Hd]]);
    pose proof (f_equal String.length Hd) as Hdl;
    rewrite ?slength_app in Hdl;
    destruct type, type'; cbn [page_type String.length String.append] in Hd, Hdl;
    try (destruct d as [|c1 [|c2 [|c3 d]]]; cbn [String.length] in Hdl; try lia;
         try discriminate Hd; rewrite ?sapp_nil_r; now split).
Qed.

(** X17.  The address that [getPdfPageUrl] builds tells the file, the page
    and the kind of page apart: whatever the base address, two calls give
    the same address only for the same file id, the same page number and the
    same kind. *)
Theorem getPdfPageUrl_is_injective
    (VITE_API_BASE_URL : option string) (fileId fileId' : string) (page page' : Z)
    (type type' : PageType) :
  getPdfPageUrl VITE_API_BASE_URL fileId page type =
  getPdfPageUrl VITE_API_BASE_URL fileId' page' type' ->
  fileId = fileId' /\ page = page' /\ type = type'.
Proof.
  unfold getPdfPageUrl. intros H.
  apply sapp_inv_head, sapp_inv_head in H.
  change ("&page=" +:+ pretty page +:+ "&type=" +:+ page_type type)
    with (String "&" ("page=" +:+ pretty page +:+ "&type=" +:+ page_type type)) in H.
  change ("&page=" +:+ pretty page' +:+ "&type=" +:+ page_type type')
    with (String "&" ("page=" +:+ pretty page' +:+ "&type=" +:+ page_type type')) in H.
  assert (Hamp : forall s, lacks "&" (encodeURIComponent s) = true).
  { intros s. apply (escaped_lacks "&"); [reflexivity | discriminate | apply escaped_encode]. }
  apply cut_unique in H as [Hf Hp]; [|apply Hamp..].
  apply sapp_inv_head in Hp. apply page_tail_unique in Hp as [Hp Ht].
  split; [|split].
  - rewrite <- (decode_encode fileId), <- (decode_encode fileId'). now f_equal.
  - now apply (inj pretty).
  - exact Ht.
Qed.

Lemma getPdfPageUrl_is_injective_witness :
  getPdfPageUrl None "f 1" 12 parsed =
  "http://localhost:8000/api/v1/pdf/page?fileId=f%201&page=12&type=parsed"
  /\ ("f 1" = "f 1" /\ 12%Z = 12%Z /\ parsed = parsed).
Proof.
  split; [reflexivity|].
  exact (getPdfPageUrl_is_injective None "f 1" "f 1" 12 12 parsed parsed eq_refl).
Defined.

End ApiFacts.

(** ** The content before rendering *)

Module MarkdownFacts.
Import Js JsFacts Renderer RendererFacts Markdown Framing FramingFacts Api ApiFacts.

Lemma img_here_other (c : Ascii.ascii) (r : string) :
  Ascii.eqb c "<" = false -> img_here (String c r) = false.
Proof.
  intros H. unfold img_here. destruct r as [|b [|c' [|d r']]]; try reflexivity.
  now rewrite H.
Qed.

(** Text without [<] passes the removal of image tags unchanged. *)
Lemma strip_img_lacking (s : string) : lacks "<" s = true -> strip_img s = s.
Proof.
  unfold strip_img. induction s as [|c s IH]; [reflexivity|].
  cbn [lacks strip_img_from]. intros H. apply andb_prop in H as [Hc Hs].
  apply negb_true_iff in Hc. rewrite (img_here_other _ _ Hc). now rewrite (IH Hs).
Qed.

Lemma strip_img_prefix (pre s : string) :
  lacks "<" pre = true -> strip_img (pre +:+ s) = pre +:+ strip_img s.
Proof.
  unfold strip_img. induction pre as [|c pre IH]; [reflexivity|].
  rewrite !sapp_cons. cbn [lacks strip_img_from]. intros H.
  apply andb_prop in H as [Hc Hs]. apply negb_true_iff in Hc.
  rewrite (img_here_other _ _ Hc). now rewrite (IH Hs).
Qed.

Lemma has_gt_app (a post : string) : has_gt (a +:+ String ">" post) = true.
Proof.
  induction a as [|c a IH]; [reflexivity|].
  rewrite sapp_cons. cbn [has_gt]. rewrite IH. apply orb_true_r.
Qed.

Lemma strip_inside (a post : string) :
  lacks ">" a = true ->
  strip_img_from true (a +:+ String ">" post) = strip_img_from false post.
Proof.
  induction a as [|c a IH]; [reflexivity|].
  rewrite sapp_cons. cbn [lacks strip_img_from]. intros H.
  apply andb_prop in H as [Hc Ha]. rewrite Hc. now apply IH.
Qed.

(** X11.  The removal of image tags drops a tag, from [<img] in either case
    to the first [>] after it, and leaves text without [<] as it is.  It
    makes one pass over the content: what stands around a removed tag is
    joined and not looked at again, so a tag that is cut in two by another
    tag is left in the result. *)
Theorem strip_img_is_one_pass (pre attrs post : string) :
  lacks "<" pre = true ->
  lacks ">" attrs = true ->
  strip_img (pre +:+ "<img" +:+ attrs +:+ ">" +:+ post) = pre +:+ strip_img post
  /\ strip_img (pre +:+ "<IMG" +:+ attrs +:+ ">" +:+ post) = pre +:+ strip_img post
  /\ strip_img pre = pre
  /\ (lacks "<" attrs = true ->
      strip_img (pre +:+ "<i" +:+ "<img>" +:+ "mg" +:+ attrs +:+ ">") =
      pre +:+ "<img" +:+ attrs +:+ ">").
Proof.
  intros Hpre Hattrs. split; [|split; [|split]].
  - rewrite (strip_img_prefix _ _ Hpre). f_equal. unfold strip_img.
    change ("<img" +:+ attrs +:+ ">" +:+ post)
      with (String "<" (String "i" (String "m" (String "g" (attrs +:+ String ">" post))))).
    cbn [strip_img_from img_here]. rewrite has_gt_app.
    change (Ascii.eqb "<" "<" && letter "i" "i" && letter "m" "m" && letter "g" "g" && true)
      with true.
    cbv iota. cbn [Ascii.eqb negb]. 
    change (strip_img_from (negb (Ascii.eqb "g" ">"))) with (strip_img_from true).
    change (strip_img_from (negb (Ascii.eqb "m" ">"))) with (strip_img_from true).
    change (strip_img_from (negb (Ascii.eqb "i" ">"))) with (strip_img_from true).
    now apply strip_inside.
  - rewrite (strip_img_prefix _ _ Hpre). f_equal. unfold strip_img.
    change ("<IMG" +:+ attrs +:+ ">" +:+ post)
      with (String "<" (String "I" (String "M" (String "G" (attrs +:+ String ">" post))))).
    cbn [strip_img_from img_here]. rewrite has_gt_app.
    change (Ascii.eqb "<" "<" && letter "i" "I" && letter "m" "M" && letter "g" "G" && true)
      with true.
    cbv iota.
    change (strip_img_from (negb (Ascii.eqb "G" ">"))) with (strip_img_from true).
    change (strip_img_from (negb (Ascii.eqb "M" ">"))) with (strip_img_from true).
    change (strip_img_from (negb (Ascii.eqb "I" ">"))) with (strip_img_from true).
    now apply strip_inside.
  - now apply strip_img_lacking.
  - intros Hlt. rewrite (strip_img_prefix _ _ Hpre). f_equal.
    change ("<i" +:+ "<img>" +:+ "mg" +:+ attrs +:+ ">")
      with (String "<" (String "i" ("<img>" +:+ ("mg" +:+ attrs +:+ ">")))).
    unfold strip_img. cbn [strip_img_from].
    change (img_here (String "<" (String "i" ("<img>" +:+ ("mg" +:+ attrs +:+ ">")))))
      with false.
    change (img_here (String "i" ("<img>" +:+ ("mg" +:+ attrs +:+ ">")))) with false.
    cbv iota.
    change ("<img>" +:+ ("mg" +:+ attrs +:+ ">"))
      with (String "<" (String "i" (String "m" (String "g"
              ("" +:+ String ">" ("mg" +:+ attrs +:+ ">")))))).
    cbn [strip_img_from img_here]. rewrite has_gt_app.
    change (Ascii.eqb "<" "<" && letter "i" "i" && letter "m" "m" && letter "g" "g" && true)
      with true.
    cbv iota.
    change (strip_img_from (negb (Ascii.eqb "g" ">"))) with (strip_img_from true).
    change (strip_img_from (negb (Ascii.eqb "m" ">"))) with (strip_img_from true).
    change (strip_img_from (negb (Ascii.eqb "i" ">"))) with (strip_img_from true).
    rewrite (strip_inside "" _ eq_refl).
    fold (strip_img ("mg" +:+ attrs +:+ ">")).
    rewrite strip_img_lacking; [reflexivity|].
    rewrite !lacks_app, Hlt. reflexivity.
Qed.

Lemma strip_img_is_one_pass_witness :
  strip_img ("see " +:+ "<img" +:+ " src=x" +:+ ">" +:+ " here") = "see  here"
  /\ strip_img ("" +:+ "<i" +:+ "<img>" +:+ "mg" +:+ " src=x onerror=y" +:+ ">") =
     "<img src=x onerror=y>".
Proof.
  destruct (strip_img_is_one_pass "see " " src=x" " here" eq_refl eq_refl)
    as (H1 & _ & _ & _).
  destruct (strip_img_is_one_pass "" " src=x onerror=y" "" eq_refl eq_refl)
    as (_ & _ & _ & H4).
  split; [exact H1 | exact (H4 eq_refl)].
Defined.

Lemma image_here_other (c : Ascii.ascii) (r : string) :
  Ascii.eqb c "!" = false -> image_here (String c r) = None.
Proof.
  intros H. unfold image_here, startsWith.
  now rewrite (prefix_other_head "!" c "[" r H).
Qed.

Lemma rewrite_images_prefix (id pre s : string) :
  lacks "!" pre = true ->
  rewrite_images_from id 0 (pre +:+ s) = pre +:+ rewrite_images_from id 0 s.
Proof.
  induction pre as [|c pre IH]; [reflexivity|].
  rewrite !sapp_cons. cbn [lacks rewrite_images_from]. intros H.
  apply andb_prop in H as [Hc Hs]. apply negb_true_iff in Hc.
  rewrite (image_here_other _ _ Hc). now rewrite (IH Hs).
Qed.

Lemma rewrite_images_skip (id a post : string) :
  rewrite_images_from id (String.length a) (a +:+ post) = rewrite_images_from id 0 post.
Proof.
  induction a as [|c a IH]; [now destruct post|].
  rewrite sapp_cons. cbn [String.length rewrite_images_from]. exact IH.
Qed.

Lemma until_app (stop : Ascii.ascii) (a r : string) :
  lacks stop a = true -> until stop (a +:+ String stop r) = a.
Proof.
  induction a as [|c a IH].
  - intros _. rewrite sapp_nil_l. cbn [until]. now rewrite Ascii.eqb_refl.
  - rewrite sapp_cons. cbn [lacks until]. intros H.
    apply andb_prop in H as [Hc Ha]. apply negb_true_iff in Hc.
    now rewrite Hc, (IH Ha).
Qed.

Lemma substring_from_add (n m : nat) (s : string) :
  substring_from (n + m) s = substring_from m (substring_from n s).
Proof.
  revert s. induction n as [|n IH]; intros [|c s]; try reflexivity.
  - now destruct m.
  - apply IH.
Qed.

(** The image pattern matches a relative image written in full. *)
Lemma image_here_match (alt name post : string) :
  lacks "]" alt = true -> lacks ")" name = true -> name <> "" ->
  image_here ("![" +:+ alt +:+ "](./images/" +:+ name +:+ ")" +:+ post) =
  Some (alt, "images/" +:+ name,
        2 + String.length alt + 11 + String.length name + 1).
Proof.
  intros Halt Hname Hne.
  set (after_name := ")" +:+ post).
  set (path := name +:+ after_name).
  set (after_alt := "](./images/" +:+ path).
  set (s := "![" +:+ alt +:+ after_alt).
  assert (E1 : until "]" (substring_from 2 s) = alt).
  { change (substring_from 2 s) with (alt +:+ String "]" ("(./images/" +:+ path)).
    now apply until_app. }
  assert (E2 : substring_from (2 + String.length alt) s = after_alt).
  { rewrite substring_from_add.
    change (substring_from 2 s) with (alt +:+ after_alt).
    apply substring_from_app_self. }
  assert (E3 : until ")" (substring_from 11 after_alt) = name).
  { change (substring_from 11 after_alt) with (name +:+ String ")" post).
    now apply until_app. }
  assert (E4 : substring_from (11 + String.length name) after_alt = after_name).
  { rewrite substring_from_add.
    change (substring_from 11 after_alt) with (name +:+ after_name).
    apply substring_from_app_self. }
  unfold image_here. cbv zeta.
  replace (startsWith s "![") with true
    by (symmetry; apply (prefix_app_self "![")).
  rewrite E1, E2.
  replace (startsWith after_alt "](./images/") with true
    by (symmetry; apply (prefix_app_self "](./images/")).
  rewrite E3, E4.
  replace (startsWith after_name ")") with true
    by (symmetry; apply (prefix_app_self ")")).
  apply String.eqb_neq in Hne. now rewrite Hne.
Qed.

Lemma filename_of_images (name : string) :
  filename_of ("images/" +:+ name) = filename_of name.
Proof.
  unfold filename_of.
  change ("images/" +:+ name) with ("images" +:+ ("/" +:+ name)).
  rewrite (split_lacking "/" "" "images" _ eq_refl).
  rewrite (split_at_separator "/" name) by discriminate.
  cbn [prepend]. apply pop_cons, split_nonempty.
Qed.

Lemma toAbsoluteApiUrl_http (src : string) :
  startsWith src "http" = true -> toAbsoluteApiUrl src = src.
Proof.
  intros H. unfold toAbsoluteApiUrl.
  destruct (String.eqb src "") eqn:E; [now apply String.eqb_eq in E|].
  destruct (startsWith src "http://" || startsWith src "https://"); [reflexivity|].
  destruct src as [|c r]; [discriminate|].
  unfold startsWith in *. destruct (Ascii.eqb c "/") eqn:Ec.
  - apply Ascii.eqb_eq in Ec as ->. discriminate H.
  - now rewrite (prefix_other_head "/" c "api/" r Ec).
Qed.

Lemma fixedSrc_http (src : string) (references : list Reference)
    (fallbackFileId : option string) :
  startsWith src "http" = true -> fixedSrc (Some src) references fallbackFileId = src.
Proof.
  intros H. unfold fixedSrc. change (default "" (Some src)) with src. cbv zeta.
  destruct (String.eqb src "") eqn:E; [now apply String.eqb_eq in E|].
  rewrite H. cbn [orb]. now apply toAbsoluteApiUrl_http.
Qed.

(** X12.  A relative image written in markdown, with a path under
    [./images/], is rewritten before rendering to the address of the
    extracted image, with the file id and the file name percent-encoded; the
    text before it is kept and the text after it is processed the same way.
    The address written is one that the image component returns as it is,
    whatever references and fallback it is given. *)
Theorem relative_image_is_rewritten
    (pre alt name post : string) (references : list Reference)
    (fallbackFileId : option string) :
  lacks "!" pre = true -> lacks "<" pre = true ->
  lacks "]" alt = true -> lacks "<" alt = true ->
  lacks ")" name = true -> lacks "<" name = true -> name <> "" ->
  imageFileId references fallbackFileId <> "" ->
  let url :=
    API_BASE +:+ "/pdf/images?fileId="
    +:+ encodeURIComponent (imageFileId references fallbackFileId)
    +:+ "&imagePath=" +:+ encodeURIComponent (filename_of name) in
  sanitizedContent (pre +:+ "![" +:+ alt +:+ "](./images/" +:+ name +:+ ")" +:+ post)
    references fallbackFileId =
  pre +:+ "![" +:+ alt +:+ "](" +:+ url +:+ ")"
  +:+ sanitizedContent post references fallbackFileId
  /\ forall (references' : list Reference) (fallbackFileId' : option string),
       fixedSrc (Some url) references' fallbackFileId' = url.
Proof.
  intros Hpre1 Hpre2 Halt1 Halt2 Hname1 Hname2 Hne Hid url. split.
  - unfold sanitizedContent. cbv zeta.
    apply String.eqb_neq in Hid. rewrite Hid. cbn [negb].
    set (id := imageFileId references fallbackFileId) in *.
    assert (E : pre +:+ "![" +:+ alt +:+ "](./images/" +:+ name +:+ ")" +:+ post =
                (pre +:+ "![" +:+ alt +:+ "](./images/" +:+ name +:+ ")") +:+ post)
      by now rewrite !sapp_assoc.
    rewrite E, strip_img_prefix
      by (rewrite !lacks_app, Hpre2, Halt2, Hname2; reflexivity).
    rewrite !sapp_assoc.
    rewrite (rewrite_images_prefix _ _ _ Hpre1). f_equal.
    set (rest := strip_img post).
    change ("![" +:+ alt +:+ "](./images/" +:+ name +:+ ")" +:+ rest)
      with (String "!" ("[" +:+ alt +:+ "](./images/" +:+ name +:+ ")" +:+ rest)).
    cbn [rewrite_images_from].
    change (String "!" ("[" +:+ alt +:+ "](./images/" +:+ name +:+ ")" +:+ rest))
      with ("![" +:+ alt +:+ "](./images/" +:+ name +:+ ")" +:+ rest).
    rewrite (image_here_match alt name rest Halt1 Hname1 Hne).
    replace (2 + String.length alt + 11 + String.length name + 1 - 1)
      with (String.length ("[" +:+ alt +:+ "](./images/" +:+ name +:+ ")"))
      by (rewrite !slength_app; cbn [String.length]; lia).
    replace ("[" +:+ alt +:+ "](./images/" +:+ name +:+ ")" +:+ rest)
      with (("[" +:+ alt +:+ "](./images/" +:+ name +:+ ")") +:+ rest)
      by now rewrite !sapp_assoc.
    rewrite rewrite_images_skip.
    unfold rewritten, url. rewrite filename_of_images.
    now rewrite !sapp_assoc.
  - intros references' fallbackFileId'. apply fixedSrc_http.
    unfold url, startsWith. apply prefix_app. reflexivity.
Qed.

Lemma relative_image_is_rewritten_witness :
  sanitizedContent
    ("Figure: " +:+ "![" +:+ "a chart" +:+ "](./images/" +:+ "sub/page3 img.png" +:+ ")"
     +:+ " (see <img src=x> above)")
    Scenario.two_references None =
  "Figure: ![a chart](http://localhost:8000/api/v1/pdf/images?fileId=f1&imagePath=page3%20img.png) (see  above)".
Proof.
  destruct (relative_image_is_rewritten "Figure: " "a chart" "sub/page3 img.png"
              " (see <img src=x> above)" Scenario.two_references None
              eq_refl eq_refl eq_refl eq_refl eq_refl eq_refl) as [H _].
  - discriminate.
  - discriminate.
  - exact H.
Defined.

Lemma truthy_default (x : option string) :
  truthy_string x = negb (String.eqb (default "" x) "").
Proof. now destruct x. Qed.

Lemma find_any_none_page (n : Z) (references : list Reference) :
  find_any references = None -> find_page n references = None.
Proof.
  intros H. destruct (find_page n references) as [r|] eqn:E; [|reflexivity].
  pose proof (find_page_fileId _ _ _ E) as Hr.
  apply List.find_some in E as [Hin _].
  apply (List.find_none _ _ H) in Hin. cbn beta in Hin. congruence.
Qed.

(** The file id that [fixedSrc] settles on is present exactly when
    [imageFileId] is not empty. *)
Lemma target_present (imgPage : option Z) (references : list Reference)
    (fallbackFileId : option string) :
  truthy_string
    (match references with
     | [] => fallbackFileId
     | _ :: _ =>
         let targetFileId :=
           match imgPage with
           | Some n =>
               match find_page n references with
               | Some matchedRef => fileId matchedRef
               | None => fallbackFileId
               end
           | None => fallbackFileId
           end in
         if negb (truthy_string targetFileId) then
           match find_any references with
           | Some anyRef => fileId anyRef
           | None => targetFileId
           end
         else targetFileId
     end) =
  negb (String.eqb (imageFileId references fallbackFileId) "").
Proof.
  unfold imageFileId. destruct references as [|r0 rs].
  - cbn [find_any List.find]. apply truthy_default.
  - set (references := r0 :: rs). cbv zeta.
    destruct (find_any references) as [anyRef|] eqn:Eany.
    + pose proof (find_any_fileId _ _ Eany) as Hany.
      rewrite <- truthy_default, Hany.
      destruct imgPage as [n|].
      * destruct (find_page n references) as [matchedRef|] eqn:Epage.
        -- pose proof (find_page_fileId _ _ _ Epage) as Hm. now rewrite Hm.
        -- now destruct (truthy_string fallbackFileId) eqn:Efb.
      * now destruct (truthy_string fallbackFileId) eqn:Efb.
    + rewrite <- truthy_default.
      assert (Hpage : forall n, find_page n references = None)
        by (intros n; now apply find_any_none_page).
      destruct imgPage as [n|]; [rewrite Hpage|];
        now destruct (truthy_string fallbackFileId) eqn:Efb.
Qed.

Lemma image_address_nonempty (targetFileId filename : string) :
  image_address targetFileId filename <> "".
Proof. discriminate. Qed.

Lemma fixedSrc_without_file_id
    (src : string) (references : list Reference) (fallbackFileId : option string) :
  startsWith src "http" = false -> startsWith src "/api/" = false ->
  imageFileId references fallbackFileId = "" ->
  fixedSrc (Some src) references fallbackFileId = "".
Proof.
  intros H1 H2 H. unfold fixedSrc.
  change (default "" (Some src)) with src. cbv zeta.
  destruct (String.eqb src "") eqn:E0; [reflexivity|].
  rewrite H1, H2. cbn [orb].
  destruct (includes src "images/"); [|reflexivity].
  destruct (String.eqb (filename_of src) ""); [reflexivity|].
  change (parseInt <$> page_match (filename_of src))
    with (fmap parseInt (page_match (filename_of src))).
  rewrite (target_present (fmap parseInt (page_match (filename_of src)))
             references fallbackFileId), H.
  reflexivity.
Qed.

Lemma fixedSrc_with_file_id
    (src : string) (references : list Reference) (fallbackFileId : option string) :
  startsWith src "http" = false -> startsWith src "/api/" = false ->
  includes src "images/" = true -> filename_of src <> "" ->
  imageFileId references fallbackFileId <> "" ->
  exists targetFileId : string,
    targetFileId <> "" /\
    fixedSrc (Some src) references fallbackFileId =
    image_address targetFileId (filename_of src).
Proof.
  intros Hhttp Hapi Himages Hname H. apply String.eqb_neq in H. unfold fixedSrc.
  change (default "" (Some src)) with src. cbv zeta.
  destruct (String.eqb src "") eqn:E0.
  { apply String.eqb_eq in E0 as ->. discriminate Himages. }
  rewrite Hhttp, Hapi, Himages. cbn [orb].
  apply String.eqb_neq in Hname. rewrite Hname.
  change (parseInt <$> page_match (filename_of src))
    with (fmap parseInt (page_match (filename_of src))).
  pose proof (target_present (fmap parseInt (page_match (filename_of src)))
                references fallbackFileId) as Ht.
  rewrite H in Ht. cbn [negb] in Ht. cbv zeta in Ht.
  match type of Ht with
  | truthy_string ?t = true =>
      rewrite Ht; exists (default "" t); split; [|reflexivity];
      rewrite truthy_default in Ht; apply negb_true_iff in Ht;
      now apply String.eqb_neq
  end.
Qed.

(** X13.  The image component and the rewriting of the content agree on
    whether a file is known.  A relative image source under [images/] with a
    file name is unresolved (the placeholder is shown) exactly when
    [imageFileId] is empty, that is, when no reference carries a file id and
    there is no fallback; otherwise its address is that of an extracted image
    of some file.  And when [imageFileId] is empty the content is only
    stripped of image tags, and no source other than an absolute or an API
    address is resolved. *)
Theorem image_is_unresolved_without_file_id
    (src : string) (references : list Reference) (fallbackFileId : option string) :
  startsWith src "http" = false -> startsWith src "/api/" = false ->
  includes src "images/" = true -> filename_of src <> "" ->
  (fixedSrc (Some src) references fallbackFileId = "" <->
   imageFileId references fallbackFileId = "")
  /\ (imageFileId references fallbackFileId <> "" ->
      exists targetFileId : string,
        targetFileId <> "" /\
        fixedSrc (Some src) references fallbackFileId =
        image_address targetFileId (filename_of src))
  /\ (imageFileId references fallbackFileId = "" ->
      (forall content : string,
         sanitizedContent content references fallbackFileId = strip_img content)
      /\ (forall src' : string,
            startsWith src' "http" = false -> startsWith src' "/api/" = false ->
            fixedSrc (Some src') references fallbackFileId = "")).
Proof.
  intros Hhttp Hapi Himages Hname. split; [|split].
  - split.
    + intros H.
      destruct (String.eqb (imageFileId references fallbackFileId) "") eqn:E;
        [now apply String.eqb_eq in E|].
      apply String.eqb_neq in E.
      destruct (fixedSrc_with_file_id src references fallbackFileId
                  Hhttp Hapi Himages Hname E) as (t & _ & Ht).
      rewrite Ht in H. discriminate H.
    + now apply fixedSrc_without_file_id.
  - now apply fixedSrc_with_file_id.
  - intros H. split.
    + intros content. unfold sanitizedContent. cbv zeta. now rewrite H.
    + intros src' H1 H2. now apply fixedSrc_without_file_id.
Qed.

Lemma image_is_unresolved_without_file_id_witness :
  fixedSrc (Some "images/fig1.png") [Scenario.reference 1 3 ""] (Some "") = ""
  /\ imageFileId [Scenario.reference 1 3 ""] (Some "") = "".
Proof.
  destruct (image_is_unresolved_without_file_id "images/fig1.png"
              [Scenario.reference 1 3 ""] (Some "")
              eq_refl eq_refl eq_refl) as ([_ H] & _ & _).
  - discriminate.
  - split; [apply H|]; reflexivity.
Defined.

Lemma api_source_head (src : string) :
  startsWith src "/api/" = true -> exists r : string, src = String "/" r.
Proof.
  destruct src as [|c r]; [discriminate|]. unfold startsWith.
  destruct (Ascii.eqb c "/") eqn:Ec.
  - apply Ascii.eqb_eq in Ec as ->. now exists r.
  - now rewrite (prefix_other_head "/" c "api/" r Ec).
Qed.

(** X14.  The result of [fixedSrc] is empty (the placeholder is shown) or
    starts with [http].  A result is a fixed point: given back to [fixedSrc]
    as a source, with any references and fallback, it is returned as it
    is. *)
Theorem fixedSrc_is_absolute_or_unresolved
    (props_src : option string) (references : list Reference)
    (fallbackFileId : option string) :
  (fixedSrc props_src references fallbackFileId = ""
   \/ startsWith (fixedSrc props_src references fallbackFileId) "http" = true)
  /\ forall (references' : list Reference) (fallbackFileId' : option string),
       fixedSrc (Some (fixedSrc props_src references fallbackFileId))
         references' fallbackFileId' =
       fixedSrc props_src references fallbackFileId.
Proof.
  assert (H : fixedSrc props_src references fallbackFileId = ""
              \/ startsWith (fixedSrc props_src references fallbackFileId) "http" = true).
  { unfold fixedSrc. cbv zeta. set (src := default "" props_src).
    destruct (String.eqb src "") eqn:E0; [now left|].
    destruct (startsWith src "http") eqn:Hhttp.
    { right. cbn [orb]. now rewrite (toAbsoluteApiUrl_http src Hhttp). }
    destruct (startsWith src "/api/") eqn:Hapi.
    { right. cbn [orb]. destruct (api_source_head src Hapi) as [r ->].
      unfold toAbsoluteApiUrl. rewrite Hapi. reflexivity. }
    cbn [orb]. destruct (includes src "images/"); [|now left].
    destruct (String.eqb (filename_of src) ""); [now left|].
    match goal with
    | |- context [truthy_string ?t] => destruct (truthy_string t); [right|now left]
    end.
    reflexivity. }
  split; [exact H|]. intros references' fallbackFileId'.
  destruct H as [-> | H]; [reflexivity | now apply fixedSrc_http].
Qed.

(** X15.  A click on a reference card never resets the conversation
    ([chatKey] is kept).  A card without a page (page 0 or below) changes
    nothing, even when it names another file.  A card with a page sets the
    target page, and switches the current file exactly when the card carries
    a file id that differs from the current one; the name and the page count
    are then reset until the file is ready.  A second click on the same card
    changes nothing more. *)
Theorem card_click_effect (card : Card) (app : App) :
  chatKey (card_click card app) = chatKey app
  /\ ((card_page card <= 0)%Z -> card_click card app = app)
  /\ ((0 < card_page card)%Z ->
      targetPage (card_click card app) = card_page card
      /\ (truthy_string (card_fileId card) = true ->
          currentFileId (card_click card app) = default "" (card_fileId card))
      /\ (truthy_string (card_fileId card) = true ->
          default "" (card_fileId card) <> currentFileId app ->
          currentFileName (card_click card app) = "Loading..."
          /\ currentTotalPages (card_click card app) = 0%Z)
      /\ (truthy_string (card_fileId card) = false
          \/ default "" (card_fileId card) = currentFileId app ->
          currentFileId (card_click card app) = currentFileId app
          /\ currentFileName (card_click card app) = currentFileName app
          /\ currentTotalPages (card_click card app) = currentTotalPages app))
  /\ card_click card (card_click card app) = card_click card app.
Proof.
  unfold card_click, handleCitationClick.
  destruct (0 <? card_page card)%Z eqn:Hp.
  - apply Z.ltb_lt in Hp.
    destruct (truthy_string (card_fileId card)) eqn:Hf;
      destruct (String.eqb (default "" (card_fileId card)) (currentFileId app)) eqn:He;
      cbn [andb negb chatKey currentFileId currentFileName currentTotalPages targetPage];
      rewrite ?Hf, ?He, ?String.eqb_refl;
      cbn [andb negb chatKey currentFileId currentFileName currentTotalPages targetPage];
      first [apply String.eqb_eq in He | apply String.eqb_neq in He];
      (split; [reflexivity|]); (split; [lia|]); (split; [|reflexivity]); intros _;
      (split; [reflexivity|]);
      (split; [intros Ht; first [discriminate Ht | reflexivity | now symmetry]|]);
      (split; [intros Ht Hne; first [discriminate Ht | now split | contradiction]|]);
      intros [Hx | Hx]; first [discriminate Hx | contradiction | now repeat split].
  - apply Z.ltb_ge in Hp. split; [reflexivity|]. split; [reflexivity|].
    split; [lia | reflexivity].
Qed.

Lemma filter_all {A : Type} (f : A -> bool) (l : list A) :
  Forall (fun x => f x = true) l -> List.filter f l = l.
Proof.
  induction 1 as [|x l Hx _ IH]; [reflexivity|].
  cbn [List.filter]. now rewrite Hx, IH.
Qed.

Lemma shown_numbers (g : Reference -> nat -> Card) (l : list Reference) (k : nat) :
  (forall r i, index (g r i) = i) ->
  map shown_number (imap (fun i r => g r (k + i)) l) = seq (k + 1) (length l).
Proof.
  intros Hg. revert k. induction l as [|r l IH]; intros k; [reflexivity|].
  cbn [imap map length seq]. unfold shown_number at 1. rewrite Hg.
  rewrite Nat.add_0_r. f_equal.
  rewrite (imap_ext _ (fun i r => g r (S k + i))).
  - apply (IH (S k)).
  - intros i x _. cbn. f_equal. lia.
Qed.

Lemma card_ids (g : Reference -> nat -> Card) (l : list Reference) (k : nat) :
  (forall r i, card_citationId (g r i) = default "" (citationId r)) ->
  map card_citationId (imap (fun i r => g r (k + i)) l) =
  map (fun r => default "" (citationId r)) l.
Proof.
  intros Hg. revert k. induction l as [|r l IH]; intros k; [reflexivity|].
  cbn [imap map]. rewrite Hg. f_equal.
  rewrite (imap_ext _ (fun i r => g r (S k + i))).
  - apply (IH (S k)).
  - intros i x _. cbn. f_equal. lia.
Qed.

(** The cards of well-numbered references: one card for each reference, in
    order, showing the number of its reference, with distinct keys. *)
Lemma cards_of_well_numbered (refs : list Controller.Reference) :
  Session.well_numbered refs ->
  map shown_number (cards (map as_prop refs)) = map Controller.ref_id refs
  /\ map Some (map card_citationId (cards (map as_prop refs))) =
     map Controller.ref_citationId refs
  /\ NoDup (map card_citationId (cards (map as_prop refs))).
Proof.
  intros (Hids & Hdup & Hcid).
  assert (Hall : List.filter (fun r => truthy_string (citationId r)) (map as_prop refs) =
                 map as_prop refs).
  { apply filter_all. apply Forall_map. eapply Forall_impl; [exact Hcid|].
    intros r (cid & Hr & Hne). cbn. rewrite Hr. cbn.
    apply String.eqb_neq in Hne. now rewrite Hne. }
  assert (Hkeys : map Some (map card_citationId (cards (map as_prop refs))) =
                  map Controller.ref_citationId refs).
  { unfold cards. rewrite Hall.
    pose proof (card_ids (fun r i =>
               {| card_citationId := default "" (citationId r); index := i;
                  card_snippet := snippet r; card_page := default 0%Z (page r);
                  card_fileId := fileId r |}) (map as_prop refs) 0
               (fun _ _ => eq_refl)) as Hc.
    cbn [Nat.add] in Hc. rewrite Hc.
    rewrite !List.map_map. apply List.map_ext_in. intros r Hin.
    rewrite Forall_forall in Hcid. apply list_elem_of_In in Hin.
    destruct (Hcid r Hin) as (cid & Hr & _). cbn. now rewrite Hr. }
  split; [|split].
  - unfold cards. rewrite Hall.
    pose proof (shown_numbers (fun r i =>
               {| card_citationId := default "" (citationId r); index := i;
                  card_snippet := snippet r; card_page := default 0%Z (page r);
                  card_fileId := fileId r |}) (map as_prop refs) 0
               (fun _ _ => eq_refl)) as Hn.
    cbn [Nat.add] in Hn. rewrite Hn.
    now rewrite List.length_map, Hids.
  - exact Hkeys.
  - rewrite <- Hkeys in Hdup.
    apply (NoDup_fmap_1 Some). exact Hdup.
Qed.

(** X16.  In every state that a mounted component reaches, the cards below
    the pending answer and below every message stand one for one for the
    references, in order: the number that a card shows is the number of its
    reference, its citation id is that of the reference, and no two cards
    of one message have the same key. *)
Theorem cards_stand_for_the_references
    (file : option string) (now : Z) (actions : list Session.Action) :
  Forall
    (fun refs : list Controller.Reference =>
       map shown_number (cards (map as_prop refs)) = map Controller.ref_id refs
       /\ map Some (map card_citationId (cards (map as_prop refs))) =
          map Controller.ref_citationId refs
       /\ NoDup (map card_citationId (cards (map as_prop refs))))
    (Controller.currentReferences
       (Controller.pending (Session.run (Controller.mount file now) actions))
     :: map Controller.committed_references
          (Controller.messages (Session.run (Controller.mount file now) actions))).
Proof.
  pose proof (SessionInvariants.run_kept actions _
                (SessionInvariants.mount_kept file now))
    as ((_ & Hrefs & _ & Hpending) & _ & Hsound & _).
  constructor.
  - apply cards_of_well_numbered. now rewrite Hrefs.
  - apply Forall_map. eapply Forall_impl; [exact Hsound|].
    intros m [_ Hm]. now apply cards_of_well_numbered.
Qed.

End MarkdownFacts.
